(** * WordEmbeddings.py: vocabulary building, skip-gram batches and the
      lazily loaded sentence encoder

    A shallow embedding of [WordEmbeddings.py] and the properties of its
    three parts:
    - [build_dataset] (lines 26-42), the frequency-ranked vocabulary;
    - [generate_batch] (lines 44-70), the sliding-window batch generator;
    - [UniversalEmbedding] / [GetEmbeddingSize] (lines 8-22), the accessors
      of the module-level [embed] handle.

    Python integers are [Z]; Python exceptions are the constructors of
    [exn]; a function that may raise returns a [result]. The cells of the
    NumPy arrays hold what the conversion to [int32] makes of the integers
    stored into them, and the sizes that NumPy, the deque and the memory
    refuse are refused; what depends on the version of NumPy and on the
    machine is a parameter, the [Platform]. *)

From Stdlib Require Import ZArith Lia.
From stdpp Require Import base list strings sorting.

Local Open Scope Z_scope.

(** ** Exceptions *)

Inductive exn : Type :=
  | AssertionError
  | ZeroDivisionError
  | ValueError
  | IndexError
  | OverflowError
  | MemoryError.

Definition result (A : Type) : Type := (exn + A)%type.

Definition raise {A : Type} (e : exn) : result A := inl e.

#[global] Instance result_ret : MRet result := λ A a, inr a.

#[global] Instance result_bind : MBind result := λ A B f m,
  match m with
  | inl e => inl e
  | inr a => f a
  end.

(** [assert cond] *)
Definition assert (cond : bool) : result unit :=
  if cond then mret () else raise AssertionError.

(** ** The platform

    Three things the code leaves to the libraries and to the machine under
    it: what NumPy puts into a cell of dtype [int32] when a Python integer
    is assigned to it, how large an array can be allocated, and how large a
    list. The sizes are those of a 64-bit CPython. *)

Definition is_int32 (z : Z) : Prop := - 2 ^ 31 ≤ z < 2 ^ 31.

(** The range of [Py_ssize_t] and of NumPy's [npy_intp]. *)
Definition ssize_t_min : Z := - 2 ^ 63.
Definition ssize_t_max : Z := 2 ^ 63 - 1.

Class Platform : Type := {
  (** The conversion of an assigned value: a value that [int32] represents
      is stored as it is; of the others NumPy 1 keeps the low 32 bits when
      they fit a C long and raises [OverflowError] when not, and NumPy 2
      raises [OverflowError] for all of them. *)
  to_int32 : Z → result Z;
  to_int32_exact : ∀ z, is_int32 z → to_int32 z = inr z;
  to_int32_range : ∀ z v, to_int32 z = inr v → is_int32 v;
  to_int32_inl : ∀ z e, to_int32 z = inl e → e = OverflowError;
  (** The number of cells of the largest [int32] array, and of items of
      the largest list, for which the process finds memory. *)
  array_limit : Z;
  array_limit_range : 0 ≤ array_limit < 2 ^ 61;
  list_limit : Z;
  list_limit_range : 0 ≤ list_limit < 2 ^ 60;
}.

(** NumPy 1: the value goes through a C long and is cut to 32 bits. *)
Definition to_int32_wrapping (z : Z) : result Z :=
  if (z <? ssize_t_min) || (ssize_t_max <? z) then raise OverflowError
  else mret ((z + 2 ^ 31) mod 2 ^ 32 - 2 ^ 31).

(** NumPy 2: a value out of range is refused. *)
Definition to_int32_checking (z : Z) : result Z :=
  if (z <? - 2 ^ 31) || (2 ^ 31 <=? z) then raise OverflowError else mret z.

(** ** Python containers *)

Module Py.

(** A [dict] keeps its keys in insertion order; assigning to a key that is
    already present replaces the value where the key stands. *)
Section Dict.
Context {K V : Type} `{EqDecision K}.

Definition dict : Type := list (K * V).

(** [d[k] = v] *)
Fixpoint dict_set (d : dict) (k : K) (v : V) : dict :=
  match d with
  | [] => [(k, v)]
  | (k', v') :: d' =>
      if decide (k' = k) then (k', v) :: d' else (k', v') :: dict_set d' k v
  end.

(** [d.get(k)] *)
Fixpoint dict_get (d : dict) (k : K) : option V :=
  match d with
  | [] => None
  | (k', v') :: d' => if decide (k' = k) then Some v' else dict_get d' k
  end.

(** [d.get(k, dflt)] *)
Definition dict_get_default (d : dict) (k : K) (dflt : V) : V :=
  default dflt (dict_get d k).

Definition dict_keys (d : dict) : list K := d.*1.
Definition dict_values (d : dict) : list V := d.*2.

(** [dict(pairs)]: the pairs are assigned from left to right. *)
Definition dict_of_pairs (pairs : list (K * V)) : dict :=
  fold_left (λ d kv, dict_set d kv.1 kv.2) pairs [].
End Dict.

Arguments dict : clear implicits.

(** [collections.Counter(words)]: a dict from each element to the number of
    its occurrences, keys in order of first occurrence. *)
Definition Counter (words : list string) : dict string Z :=
  fold_left (λ c w, dict_set c w (dict_get_default c w 0 + 1)) words [].

(** [sorted(items, key=itemgetter(1), reverse=True)]: a stable sort, so
    items of equal count keep their order. *)
Fixpoint insert_desc (x : string * Z) (l : list (string * Z))
  : list (string * Z) :=
  match l with
  | [] => [x]
  | y :: l' => if x.2 <? y.2 then y :: insert_desc x l' else x :: y :: l'
  end.

Definition sorted_desc (items : list (string * Z)) : list (string * Z) :=
  foldr insert_desc [] items.

(** [c.most_common(n)] is [heapq.nlargest(n, c.items(), key=itemgetter(1))],
    that is the first [n] items of the sort above, and nothing for
    [n <= 0]. *)
Definition most_common (n : Z) (c : dict string Z) : list (string * Z) :=
  if n <=? 0 then [] else take (Z.to_nat n) (sorted_desc c).

(** [len(l)] *)
Definition len {A : Type} (l : list A) : Z := Z.of_nat (length l).

(** [a % b] and [a // b]: floored, as [Z.modulo] and [Z.div] are, and
    raising on a zero divisor. *)
Definition mod_ (a b : Z) : result Z :=
  if b =? 0 then raise ZeroDivisionError else mret (a mod b).

Definition floordiv (a b : Z) : result Z :=
  if b =? 0 then raise ZeroDivisionError else mret (a / b).

(** [range(n)] *)
Definition range (n : Z) : list Z := seqZ 0 n.

(** [enumerate(l)] *)
Definition enumerate {A : Type} (l : list A) : list (Z * A) :=
  zip (range (len l)) l.

(** An index into a sequence of [n] elements: negative indices count from
    the end, anything outside [-n, n) raises. *)
Definition norm_index (n : nat) (i : Z) : result nat :=
  if (0 <=? i) && (i <? Z.of_nat n) then mret (Z.to_nat i)
  else if (- Z.of_nat n <=? i) && (i <? 0) then mret (Z.to_nat (i + Z.of_nat n))
  else raise IndexError.

(** [l[i]] *)
Definition getitem {A : Type} (l : list A) (i : Z) : result A :=
  idx ← norm_index (length l) i;
  match l !! idx with
  | Some x => mret x
  | None => raise IndexError
  end.

(** [l[i] = x] *)
Definition setitem {A : Type} (l : list A) (i : Z) (x : A) : result (list A) :=
  idx ← norm_index (length l) i;
  mret (<[idx := x]> l).

(** [l[a:b]]: the bounds are clamped, never raising. *)
Definition clamp (n i : Z) : Z :=
  if i <? 0 then Z.max (i + n) 0 else Z.min i n.

Definition slice {A : Type} (l : list A) (a b : Z) : list A :=
  let a := clamp (len l) a in
  let b := clamp (len l) b in
  take (Z.to_nat (b - a)) (drop (Z.to_nat a) l).

(** [collections.deque(maxlen=n)]: appending to a full deque discards its
    leftmost item. *)
Record deque : Type := Deque { items : list Z; maxlen : nat }.

(** [maxlen] is read as a [Py_ssize_t], which raises [OverflowError] for
    an integer it cannot hold; a negative one is then a [ValueError]. *)
Definition deque_new (n : Z) : result deque :=
  if (n <? ssize_t_min) || (ssize_t_max <? n) then raise OverflowError
  else if n <? 0 then raise ValueError
  else mret {| items := []; maxlen := Z.to_nat n |}.

Definition deque_append (q : deque) (x : Z) : deque :=
  let items' := items q ++ [x] in
  {| items := if (maxlen q <? length items')%nat then drop 1 items' else items';
     maxlen := maxlen q |}.

Definition deque_extend (q : deque) (xs : list Z) : deque :=
  fold_left deque_append xs q.

(** A list under construction, here by a comprehension: there must be
    memory for its items. *)
Definition new_list `{PF : Platform} {A : Type} (l : list A) : result (list A) :=
  if list_limit <? len l then raise MemoryError else mret l.

(** [np.ndarray(shape, dtype=np.int32)]: the cells of a fresh array hold
    whatever the memory held; [None] stands for a cell never written. A
    written cell holds the [int32] that [to_int32] made of the value
    assigned to it. *)
Abbreviation cell := (option Z).

(** The size in bytes of an array of the given shape, counted as NumPy
    does from the size of an item: a dimension of 0 is passed over, and the
    count may not leave [npy_intp]. *)
Fixpoint array_nbytes (shape : list Z) (nbytes : Z) : result Z :=
  match shape with
  | [] => mret nbytes
  | d :: shape' =>
      if d =? 0 then array_nbytes shape' nbytes
      else if ssize_t_max <? nbytes * d then raise ValueError
      else array_nbytes shape' (nbytes * d)
  end.

(** The checks of an allocation: no dimension is negative or leaves
    [npy_intp], the size in bytes (4 per [int32]) can be counted, and the
    memory is found. *)
Definition array_alloc `{PF : Platform} (shape : list Z) : result unit :=
  if existsb (λ d, (d <? 0) || (ssize_t_max <? d)) shape
  then raise ValueError
  else
    _ ← array_nbytes shape 4;
    if array_limit <? foldr Z.mul 1 shape then raise MemoryError
    else mret ().

Definition ndarray1 `{PF : Platform} (n : Z) : result (list cell) :=
  _ ← array_alloc [n];
  mret (replicate (Z.to_nat n) None).

Definition ndarray2 `{PF : Platform} (n m : Z) : result (list (list cell)) :=
  _ ← array_alloc [n; m];
  mret (replicate (Z.to_nat n) (replicate (Z.to_nat m) None)).

(** [a[i] = z] on an array of dtype [int32]: the index is checked, then
    the value converted. *)
Definition store `{PF : Platform} (a : list cell) (i z : Z) : result (list cell) :=
  idx ← norm_index (length a) i;
  v ← to_int32 z;
  mret (<[idx := Some v]> a).

(** [a[i, j] = z] *)
Definition store2 `{PF : Platform} (a : list (list cell)) (i j z : Z)
  : result (list (list cell)) :=
  row ← getitem a i;
  row ← store row j z;
  setitem a i row.

(** A [for] loop over [xs] whose body updates the loop variables [s] and
    may raise. *)
Fixpoint for_each {A S : Type} (xs : list A) (body : A → S → result S) (s : S)
  : result S :=
  match xs with
  | [] => mret s
  | x :: xs' => s' ← body x s; for_each xs' body s'
  end.

End Py.

Import Py.

(** ** [build_dataset] *)

Definition UNK : string := "UNK".

(** Lines 30-32: [for word, _ in count: dictionary[word] = len(dictionary)] *)
Definition assign_ids (count : list (string * Z)) : dict string Z :=
  fold_left (λ dictionary entry, dict_set dictionary entry.1 (len dictionary))
            count [].

(** Lines 33-39: the encoding loop, with its two accumulators. *)
Definition encode (dictionary : dict string Z) (words : list string)
  : list Z * Z :=
  fold_left
    (λ '(data, unk_count) word,
       let index := dict_get_default dictionary word 0 in
       let unk_count := if index =? 0 then unk_count + 1 else unk_count in
       (data ++ [index], unk_count))
    words ([], 0).

Definition build_dataset (words : list string) (n_words : Z)
  : result (list Z * list (string * Z) * dict string Z * dict Z string) :=
  let count := [(UNK, -1)] in
  let count := count ++ most_common (n_words - 1) (Counter words) in
  let dictionary := assign_ids count in
  let '(data, unk_count) := encode dictionary words in
  let count := alter (λ entry, (entry.1, unk_count)) 0%nat count in
  let reversed_dictionary :=
    dict_of_pairs (zip (dict_values dictionary) (dict_keys dictionary)) in
  mret (data, count, dictionary, reversed_dictionary).

(** The number of distinct tokens of a sequence. *)
Definition distinct_token_count (words : list string) : Z :=
  len (remove_dups words).

(** ** The random source

    [random.sample(population, k)] returns [k] elements taken at distinct
    positions of [population], and raises [ValueError] when [k] is negative
    or exceeds the population. Which elements it returns depends on the
    state of the generator; [draw] stands for that choice. *)

Class RandomSource (R : Type) : Type := {
  draw : R → list Z → nat → list Z * R;
  draw_length : ∀ r population k,
    (k ≤ length population)%nat → length (draw r population k).1 = k;
  draw_NoDup : ∀ r population k,
    NoDup population → NoDup (draw r population k).1;
  draw_subseteq : ∀ r population k, (draw r population k).1 ⊆ population;
}.

Definition random_sample `{RandomSource R}
    (rng : R) (population : list Z) (k : Z) : result (list Z * R) :=
  if (k <? 0) || (len population <? k) then raise ValueError
  else mret (draw rng population (Z.to_nat k)).

(** ** [generate_batch] *)

Abbreviation arrays := (list cell * list (list cell))%type.

(** Lines 59-61: the pairs of group [i], one per sampled position. *)
Definition emit_pairs `{PF : Platform} (num_skips skip_window i : Z)
    (buffer : deque) (words_to_use : list Z) (out : arrays) : result arrays :=
  for_each (enumerate words_to_use)
    (λ '(j, context_word) '(batch, labels),
       target ← getitem (items buffer) skip_window;
       batch ← store batch (i * num_skips + j) target;
       context ← getitem (items buffer) context_word;
       labels ← store2 labels (i * num_skips + j) 0 context;
       mret (batch, labels))
    out.

(** Lines 62-67: the window moves on by one token, or starts over. *)
Definition advance_window (span : Z) (data : list Z)
    (buffer : deque) (data_index : Z) : result (deque * Z) :=
  if data_index =? len data then
    mret (deque_extend buffer (slice data 0 span), span)
  else
    next ← getitem data data_index;
    mret (deque_append buffer next, data_index + 1).

(** Lines 57-67: the body of the loop over the groups. *)
Definition group `{RS : RandomSource R} `{PF : Platform}
    (num_skips skip_window span : Z) (data : list Z) (i : Z)
    (s : arrays * deque * Z * R)
  : result (arrays * deque * Z * R) :=
  let '(out, buffer, data_index, rng) := s in
  context_words ← new_list (filter (λ w, w ≠ skip_window) (range span));
  '(words_to_use, rng) ← random_sample rng context_words num_skips;
  out ← emit_pairs num_skips skip_window i buffer words_to_use out;
  '(buffer, data_index) ← advance_window span data buffer data_index;
  mret (out, buffer, data_index, rng).

Definition generate_batch `{RS : RandomSource R} `{PF : Platform}
    (batch_size num_skips skip_window : Z) (data : list Z) (rng : R)
  : result (list cell * list (list cell) * R) :=
  let data_index := 0 in
  rem ← mod_ batch_size num_skips;
  _ ← assert (rem =? 0);
  _ ← assert (num_skips <=? 2 * skip_window);
  batch ← ndarray1 batch_size;
  labels ← ndarray2 batch_size 1;
  let span := 2 * skip_window + 1 in
  buffer ← deque_new span;
  let data_index := if data_index + span >? len data then 0 else data_index in
  let buffer := deque_extend buffer (slice data data_index (data_index + span)) in
  let data_index := data_index + span in
  groups ← floordiv batch_size num_skips;
  '(batch, labels, buffer, data_index, rng) ←
    for_each (range groups) (group num_skips skip_window span data)
      (batch, labels, buffer, data_index, rng);
  _ ← mod_ (data_index + len data - span) (len data);
  mret (batch, labels, rng).

(** The window of the [i]-th group starts at [window_start i]: the start
    moves by one per group and returns to 0 after the last full window. *)
Definition window_start (skip_window : Z) (data : list Z) (i : Z) : Z :=
  i mod (len data - (2 * skip_window + 1) + 1).

(** [target] and [context] are a skip-gram pair of the window of [data]
    that starts at [start]: the target is its center, the context stands at
    another of its positions. *)
Definition skipgram_pair (skip_window : Z) (data : list Z)
    (start target context : Z) : Prop :=
  0 ≤ start ∧ start + (2 * skip_window + 1) ≤ len data ∧
  data !! Z.to_nat (start + skip_window) = Some target ∧
  ∃ p, 0 ≤ p < 2 * skip_window + 1 ∧ p ≠ skip_window ∧
       Z.abs (p - skip_window) ≤ skip_window ∧
       data !! Z.to_nat (start + p) = Some context.

(** ** The sentence encoder (lines 8-22)

    The module-level variable [embed] is part of the state of the process,
    next to what was printed and how many times [hub.Module] was called.
    TensorFlow and TensorFlow Hub are the interface the code is written
    against. *)

Section Embedding.
Context {Module_ Tensor : Type}.

(** [hub.Module(url)], which fetches and builds the encoder; what it
    yields may differ from one call to the next. *)
Variable hub_Module : string → nat → result Module_.
(** [tf.cast(x, tf.string)] and [tf.squeeze(x)] *)
Variable tf_cast_string : Tensor → result Tensor.
Variable tf_squeeze : Tensor → result Tensor.
(** [m(x, signature="default", as_dict=True)["default"]] *)
Variable apply_default : Module_ → Tensor → result Tensor.
(** [m.get_output_info_dict()['default'].get_shape()[1].value] *)
Variable output_size : Module_ → result Z.

Record process : Type := Process {
  embed : option Module_;
  stdout : list string;
  fetches : nat;
}.

Definition encoder_url : string :=
  "https://tfhub.dev/google/universal-sentence-encoder/2".

Definition print (line : string) (st : process) : process :=
  {| embed := embed st; stdout := stdout st ++ [line]; fetches := fetches st |}.

Definition UniversalEmbedding (x : Tensor) (st : process)
  : result Tensor * process :=
  match embed st with
  | None =>
      let st := print "Getting universal sentence encoder" st in
      let fetched := hub_Module encoder_url (fetches st) in
      let st := {| embed := embed st; stdout := stdout st;
                   fetches := S (fetches st) |} in
      match fetched with
      | inl e => (inl e, st)
      | inr m =>
          let st := {| embed := Some m; stdout := stdout st;
                       fetches := fetches st |} in
          (x ← tf_cast_string x; x ← tf_squeeze x; apply_default m x, st)
      end
  | Some m => (x ← tf_cast_string x; x ← tf_squeeze x; apply_default m x, st)
  end.

Definition GetEmbeddingSize (st : process) : result Z * process :=
  match embed st with
  | None =>
      let st := print "Getting universal sentence encoder" st in
      let fetched := hub_Module encoder_url (fetches st) in
      let st := {| embed := embed st; stdout := stdout st;
                   fetches := S (fetches st) |} in
      match fetched with
      | inl e => (inl e, st)
      | inr m =>
          let st := {| embed := Some m; stdout := stdout st;
                       fetches := fetches st |} in
          (output_size m, st)
      end
  | Some m => (output_size m, st)
  end.

(** A caller's use of the module: one call to either accessor. *)
Inductive call : Type :=
  | CallUniversalEmbedding (x : Tensor)
  | CallGetEmbeddingSize.

Definition step (c : call) (st : process) : process :=
  match c with
  | CallUniversalEmbedding x => (UniversalEmbedding x st).2
  | CallGetEmbeddingSize => (GetEmbeddingSize st).2
  end.

Definition run (calls : list call) (st : process) : process :=
  fold_left (λ st c, step c st) calls st.
End Embedding.

Arguments process : clear implicits.
Arguments call : clear implicits.

(** ** Notions used in the statements and in the proofs *)

(** [count[0][1]] of what [build_dataset] returns. *)
Definition unk_frequency
    (r : result (list Z * list (string * Z) * dict string Z * dict Z string))
  : option Z :=
  match r with
  | inr (_, count, _, _) => snd <$> count !! 0%nat
  | inl _ => None
  end.

(** Once the first entry is in, the IDs handed out are positive: only the
    entry of "UNK" can hold 0. *)
Definition zero_only_UNK (d : dict string Z) : Prop :=
  d ≠ [] ∧ NoDup (dict_keys d) ∧ ∀ k v, (k, v) ∈ d → v = 0 → k = UNK.

Definition no_zero (d : dict string Z) : Prop :=
  d ≠ [] ∧ NoDup (dict_keys d) ∧ ∀ k v, (k, v) ∈ d → v ≠ 0.

(** A cell never written, or one that holds an [int32]. *)
Definition cell_int32 (c : cell) : Prop := ∀ v, c = Some v → is_int32 v.

(** The buffer holds the [span] tokens of [data] from position [s] on. *)
Definition holds_window (data : list Z) (span s : nat) (q : deque) : Prop :=
  maxlen q = span ∧ length (items q) = span ∧
  ∀ j, (j < span)%nat → items q !! j = data !! (s + j)%nat.

(** Cell [k] of both arrays holds a pair of the window of its group. *)
Definition pair_at (num_skips skip_window : Z) (data : list Z)
    (k : nat) (out : arrays) : Prop :=
  ∃ target context,
    out.1 !! k = Some (Some target) ∧ out.2 !! k = Some [Some context] ∧
    skipgram_pair skip_window data
      (window_start skip_window data (Z.of_nat k / num_skips)) target context.

(** What holds when the loop over the groups reaches group [i]. *)
Definition groups_inv {R : Type} (batch_size num_skips skip_window : Z)
    (data : list Z) (i : nat) (s : arrays * deque * Z * R) : Prop :=
  let '(out, buffer, data_index, _) := s in
  length out.1 = Z.to_nat batch_size ∧
  length out.2 = Z.to_nat batch_size ∧
  Forall (λ row, length row = 1%nat) out.2 ∧
  holds_window data (Z.to_nat (2 * skip_window + 1))
    (Z.to_nat (window_start skip_window data (Z.of_nat i))) buffer ∧
  data_index =
    window_start skip_window data (Z.of_nat i) + (2 * skip_window + 1) ∧
  ∀ k, Z.of_nat k < Z.of_nat i * num_skips →
       pair_at num_skips skip_window data k out.

(** The state in which the loop over the groups starts. *)
Definition initial_state {R : Type}
    (batch_size skip_window : Z) (data : list Z) (rng : R)
  : arrays * deque * Z * R :=
  (replicate (Z.to_nat batch_size) None,
   replicate (Z.to_nat batch_size) [None],
   deque_extend {| items := []; maxlen := Z.to_nat (2 * skip_window + 1) |}
     (slice data 0 (2 * skip_window + 1)),
   2 * skip_window + 1, rng).

(** The number of occurrences of a token in a sequence. *)
Definition occurrences (w : string) (words : list string) : Z :=
  len (filter (λ x, x = w) words).

(** The sum of the frequencies stored in [count]. *)
Definition total_frequency (count : list (string * Z)) : Z :=
  foldr (λ entry acc, entry.2 + acc) 0 count.

(** Entries in order of non-increasing frequency. *)
Definition by_frequency (x y : string * Z) : Prop := y.2 ≤ x.2.

(** The labels of group [g] are the tokens at [num_skips] pairwise
    distinct positions of its window, none of them the center. *)
Definition group_positions (num_skips skip_window : Z) (data : list Z)
    (g : nat) (labels : list (list cell)) : Prop :=
  ∃ ps : list Z,
    len ps = num_skips ∧ NoDup ps ∧
    (∀ p, p ∈ ps → 0 ≤ p < 2 * skip_window + 1 ∧ p ≠ skip_window) ∧
    ∀ j p, ps !! j = Some p →
      ∃ context,
        data !! Z.to_nat (window_start skip_window data (Z.of_nat g) + p)
          = Some context ∧
        labels !! (Z.to_nat (Z.of_nat g * num_skips) + j)%nat
          = Some [Some context].


(** A deterministic source for running the code: the seed rotates the
    population, the sample is the front of the rotation, and the seed
    advances by one. *)
Definition rotate_draw (seed : nat) (population : list Z) (k : nat)
  : list Z * nat :=
  (take k (rotate seed population), S seed).

(** * Properties *)

(** ** A concrete random source *)

Lemma rotate_draw_length seed (population : list Z) k :
  (k ≤ length population)%nat → length (rotate_draw seed population k).1 = k.
Proof. intros Hk. cbn. rewrite length_take, length_rotate. lia. Qed.

Lemma rotate_draw_subseteq seed (population : list Z) k :
  (rotate_draw seed population k).1 ⊆ population.
Proof.
  cbn. intros x Hx. apply (subseteq_take k) in Hx.
  unfold rotate in Hx. apply elem_of_app in Hx as [Hx|Hx].
  - by apply subseteq_drop in Hx.
  - by apply subseteq_take in Hx.
Qed.

Lemma rotate_draw_NoDup seed (population : list Z) k :
  NoDup population → NoDup (rotate_draw seed population k).1.
Proof.
  intros Hnd. cbn. eapply sublist_NoDup; [|apply sublist_take].
  unfold rotate. rewrite Permutation_app_comm. by rewrite take_drop.
Qed.

#[global] Instance rotating_source : RandomSource nat := {|
  draw := rotate_draw;
  draw_length := rotate_draw_length;
  draw_NoDup := rotate_draw_NoDup;
  draw_subseteq := rotate_draw_subseteq;
|}.

(** ** Two concrete platforms *)

Lemma to_int32_wrapping_exact z : is_int32 z → to_int32_wrapping z = inr z.
Proof.
  unfold is_int32, to_int32_wrapping, ssize_t_min, ssize_t_max. intros Hz.
  destruct (Z.ltb_spec z (- 2 ^ 63)), (Z.ltb_spec (2 ^ 63 - 1) z);
    cbn; try lia.
  unfold mret, result_ret. f_equal.
  rewrite Z.mod_small by lia. lia.
Qed.

Lemma to_int32_wrapping_range z v : to_int32_wrapping z = inr v → is_int32 v.
Proof.
  unfold is_int32, to_int32_wrapping. case_match; [done|]. intros [= <-].
  pose proof (Z.mod_pos_bound (z + 2 ^ 31) (2 ^ 32)). lia.
Qed.

Lemma to_int32_wrapping_inl z e : to_int32_wrapping z = inl e → e = OverflowError.
Proof. unfold to_int32_wrapping. case_match; [by intros [= <-]|done]. Qed.

Lemma to_int32_checking_exact z : is_int32 z → to_int32_checking z = inr z.
Proof.
  unfold is_int32, to_int32_checking. intros Hz.
  destruct (Z.ltb_spec z (- 2 ^ 31)), (Z.leb_spec (2 ^ 31) z); cbn; try lia.
  done.
Qed.

Lemma to_int32_checking_range z v : to_int32_checking z = inr v → is_int32 v.
Proof.
  unfold is_int32, to_int32_checking.
  destruct (Z.ltb_spec z (- 2 ^ 31)), (Z.leb_spec (2 ^ 31) z); cbn; try done.
  intros [= <-]. lia.
Qed.

Lemma to_int32_checking_inl z e : to_int32_checking z = inl e → e = OverflowError.
Proof. unfold to_int32_checking. case_match; [by intros [= <-]|done]. Qed.

Lemma array_room : 0 ≤ 2 ^ 32 < 2 ^ 61.
Proof. lia. Qed.

Lemma list_room : 0 ≤ 2 ^ 32 < 2 ^ 60.
Proof. lia. Qed.

(** NumPy 1, the NumPy of the TensorFlow 1 this module is written for, on
    a machine with room for 2^32 cells or items. The concrete runs below
    are made on it. *)
#[global] Instance numpy_1 : Platform := {|
  to_int32 := to_int32_wrapping;
  to_int32_exact := to_int32_wrapping_exact;
  to_int32_range := to_int32_wrapping_range;
  to_int32_inl := to_int32_wrapping_inl;
  array_limit := 2 ^ 32;
  array_limit_range := array_room;
  list_limit := 2 ^ 32;
  list_limit_range := list_room;
|}.

(** NumPy 2 on the same machine. *)
Definition numpy_2 : Platform := {|
  to_int32 := to_int32_checking;
  to_int32_exact := to_int32_checking_exact;
  to_int32_range := to_int32_checking_range;
  to_int32_inl := to_int32_checking_inl;
  array_limit := 2 ^ 32;
  array_limit_range := array_room;
  list_limit := 2 ^ 32;
  list_limit_range := list_room;
|}.


(** ** Facts about the containers *)

Section DictFacts.
Context {K V : Type} `{EqDecision K}.
Implicit Types (d : dict K V) (k : K) (v : V).

Lemma dict_get_set d k v k' :
  dict_get (dict_set d k v) k' = if decide (k = k') then Some v else dict_get d k'.
Proof.
  induction d as [|[k0 v0] d IH]; cbn.
  - destruct (decide (k = k')); done.
  - destruct (decide (k0 = k)) as [->|Hne]; cbn.
    + destruct (decide (k = k')); done.
    + destruct (decide (k0 = k')) as [->|Hne'].
      * destruct (decide (k = k')); congruence.
      * apply IH.
Qed.

Lemma dict_get_Some_elem d k v : dict_get d k = Some v → (k, v) ∈ d.
Proof.
  induction d as [|[k0 v0] d IH]; cbn; [done|].
  destruct (decide (k0 = k)) as [->|Hne].
  - intros [= ->]. left.
  - intros Hg. right. by apply IH.
Qed.

Lemma dict_get_is_Some d k : k ∈ dict_keys d → is_Some (dict_get d k).
Proof.
  unfold dict_keys. induction d as [|[k0 v0] d IH]; cbn.
  - intros Hin. by apply elem_of_nil in Hin.
  - intros Hin. destruct (decide (k0 = k)) as [->|Hne]; [eauto|].
    apply elem_of_cons in Hin as [->|Hin]; [done|]. by apply IH.
Qed.

Lemma dict_get_None d k : k ∉ dict_keys d → dict_get d k = None.
Proof.
  intros Hnin. destruct (dict_get d k) as [v|] eqn:Hg; [|done].
  apply dict_get_Some_elem in Hg. exfalso. apply Hnin.
  unfold dict_keys. apply list_elem_of_fmap. by exists (k, v).
Qed.

Lemma dict_get_elem_NoDup d k v :
  NoDup (dict_keys d) → (k, v) ∈ d → dict_get d k = Some v.
Proof.
  unfold dict_keys. induction d as [|[k0 v0] d IH]; cbn.
  - intros _ Hin. by apply elem_of_nil in Hin.
  - intros Hnd Hin. apply NoDup_cons in Hnd as [Hk0 Hnd].
    apply elem_of_cons in Hin as [[= -> ->]|Hin].
    + by rewrite decide_True.
    + rewrite decide_False; [by apply IH|].
      intros ->. apply Hk0. apply list_elem_of_fmap. by exists (k, v).
Qed.

Lemma dict_set_fresh d k v : k ∉ dict_keys d → dict_set d k v = d ++ [(k, v)].
Proof.
  unfold dict_keys. induction d as [|[k0 v0] d IH]; cbn; [done|].
  intros Hnin. apply not_elem_of_cons in Hnin as [Hne Hnin].
  rewrite decide_False by done. by rewrite IH.
Qed.

Lemma dict_set_keys d k v :
  dict_keys (dict_set d k v) =
    if decide (k ∈ dict_keys d) then dict_keys d else dict_keys d ++ [k].
Proof.
  unfold dict_keys. induction d as [|[k0 v0] d IH]; cbn.
  - rewrite decide_False; [done|]. apply not_elem_of_nil.
  - destruct (decide (k0 = k)) as [->|Hne]; cbn.
    + rewrite decide_True; [done|]. left.
    + rewrite IH. destruct (decide (k ∈ d.*1)) as [Hin|Hnin].
      * rewrite decide_True; [done|]. by right.
      * rewrite decide_False; [done|].
        intros Hin. apply elem_of_cons in Hin as [->|Hin]; done.
Qed.

Lemma dict_set_NoDup d k v :
  NoDup (dict_keys d) → NoDup (dict_keys (dict_set d k v)).
Proof.
  intros Hnd. rewrite dict_set_keys. case_decide; [done|].
  apply NoDup_app. split_and!; [done| |apply NoDup_singleton].
  intros x Hx Hx'. apply list_elem_of_singleton in Hx' as ->. done.
Qed.

Lemma dict_set_length d k v :
  length (dict_set d k v) =
    (if decide (k ∈ dict_keys d) then length d else S (length d))%nat.
Proof.
  pose proof (f_equal length (dict_set_keys d k v)) as Hk.
  unfold dict_keys in Hk. rewrite length_fmap in Hk. rewrite Hk.
  unfold dict_keys. case_decide; rewrite ?length_app, length_fmap; cbn; lia.
Qed.

(** What an entry of an updated dict can be. *)
Lemma elem_of_dict_set d k v k' v' :
  (k', v') ∈ dict_set d k v → (k', v') ∈ d ∨ (k' = k ∧ v' = v).
Proof.
  induction d as [|[k0 v0] d IH]; cbn.
  - intros Hin. apply list_elem_of_singleton in Hin as [= -> ->]. by right.
  - destruct (decide (k0 = k)) as [->|Hne]; intros Hin;
      apply elem_of_cons in Hin as [[= -> ->]|Hin].
    + by right.
    + left. by right.
    + left. left.
    + apply IH in Hin as [Hin|Hin]; [left; by right|by right].
Qed.

Lemma elem_of_dict_set_NoDup d k v k' v' :
  NoDup (dict_keys d) →
  (k', v') ∈ dict_set d k v → (k' = k ∧ v' = v) ∨ (k' ≠ k ∧ (k', v') ∈ d).
Proof.
  intros Hnd Hin.
  assert (dict_get (dict_set d k v) k' = Some v') as Hg.
  { apply dict_get_elem_NoDup; [by apply dict_set_NoDup|done]. }
  rewrite dict_get_set in Hg. case_decide as Hk.
  - left. by injection Hg as <-.
  - right. split; [done|]. by apply dict_get_Some_elem.
Qed.
End DictFacts.

(** ** [build_dataset]: the dictionary *)

Local Abbreviation assign_loop :=
  (fold_left (λ (dictionary : dict string Z) (entry : string * Z),
                dict_set dictionary entry.1 (len dictionary))).

(** The loop of lines 31-32 keeps whatever each of its steps keeps. *)
Lemma assign_fold_ind (P : dict string Z → Prop) :
  (∀ d (entry : string * Z), P d → P (dict_set d entry.1 (len d))) →
  ∀ count d, P d →
    P (assign_loop count d).
Proof.
  intros Hstep count. induction count as [|entry count IH]; cbn; [done|].
  intros d Hd. apply IH, Hstep, Hd.
Qed.

Lemma assign_ids_cons_UNK c top :
  assign_ids ((UNK, c) :: top) =
    assign_loop top [(UNK, 0)].
Proof. reflexivity. Qed.

Lemma dict_set_nonempty (d : dict string Z) k v : dict_set d k v ≠ [].
Proof. destruct d as [|[k0 v0] d]; cbn; [done|]. by case_decide. Qed.

Lemma len_pos {A} (l : list A) : l ≠ [] → 0 < len l.
Proof. destruct l; [done|]. unfold len. cbn. lia. Qed.

Lemma zero_only_UNK_step d (entry : string * Z) :
  zero_only_UNK d → zero_only_UNK (dict_set d entry.1 (len d)).
Proof.
  intros (Hne & Hnd & Hz). split_and!.
  - apply dict_set_nonempty.
  - by apply dict_set_NoDup.
  - intros k v Hin ->. apply elem_of_dict_set in Hin as [Hin|[_ Hv]].
    + by eapply Hz.
    + apply len_pos in Hne. lia.
Qed.

Lemma no_zero_step d (entry : string * Z) : no_zero d → no_zero (dict_set d entry.1 (len d)).
Proof.
  intros (Hne & Hnd & Hz). split_and!.
  - apply dict_set_nonempty.
  - by apply dict_set_NoDup.
  - intros k v Hin ->. apply elem_of_dict_set in Hin as [Hin|[_ Hv]].
    + by eapply Hz.
    + apply len_pos in Hne. lia.
Qed.

(** The step that meets "UNK" again overwrites the only 0. *)
Lemma zero_only_UNK_overwrite d (c : Z) :
  zero_only_UNK d → no_zero (dict_set d (UNK, c).1 (len d)).
Proof.
  intros (Hne & Hnd & Hz). split_and!.
  - apply dict_set_nonempty.
  - by apply dict_set_NoDup.
  - intros k v Hin ->.
    apply elem_of_dict_set_NoDup in Hin as [[_ Hv]|[Hk Hin]]; [| |done].
    + apply len_pos in Hne. lia.
    + apply Hk. by eapply Hz.
Qed.

Lemma assign_keys_mono count (d : dict string Z) k :
  k ∈ dict_keys d →
  k ∈ dict_keys (assign_loop count d).
Proof.
  revert d. apply (assign_fold_ind (λ d, k ∈ dict_keys d)).
  intros d entry Hin. rewrite dict_set_keys. case_decide; [done|].
  apply elem_of_app. by left.
Qed.

Lemma assign_ids_UNK_again top :
  UNK ∈ top.*1 → no_zero (assign_ids ((UNK, -1) :: top)).
Proof.
  intros Hin. apply list_elem_of_fmap in Hin as ([w c] & Hw & Hin).
  cbn in Hw. subst w.
  apply list_elem_of_split in Hin as (l1 & l2 & ->).
  rewrite assign_ids_cons_UNK, fold_left_app. cbn [fold_left].
  apply (assign_fold_ind no_zero); [apply no_zero_step|].
  apply zero_only_UNK_overwrite.
  apply (assign_fold_ind zero_only_UNK); [apply zero_only_UNK_step|].
  split_and!; [done|apply NoDup_singleton|].
  intros k v Hin _. by apply list_elem_of_singleton in Hin as [= -> _].
Qed.

Lemma assign_ids_has_UNK top : UNK ∈ dict_keys (assign_ids ((UNK, -1) :: top)).
Proof.
  rewrite assign_ids_cons_UNK. apply assign_keys_mono. cbn. left.
Qed.

(** The keys of [dict(pairs)] are first components of [pairs]. *)
Lemma dict_of_pairs_get {K V} `{EqDecision K} (pairs : list (K * V)) k v :
  dict_get (dict_of_pairs pairs) k = Some v → (k, v) ∈ pairs.
Proof.
  unfold dict_of_pairs.
  assert (∀ acc : dict K V,
    dict_get (fold_left (λ d kv, dict_set d kv.1 kv.2) pairs acc) k = Some v →
    (k, v) ∈ pairs ∨ dict_get acc k = Some v) as Hgen.
  { induction pairs as [|[k0 v0] pairs IH]; cbn; intros acc Hg; [by right|].
    apply IH in Hg as [Hin|Hg]; [left; by right|].
    rewrite dict_get_set in Hg. cbn in Hg. case_decide as Hk.
    - injection Hg as <-. subst k0. left. left.
    - by right. }
  intros Hg. by apply Hgen in Hg as [Hin|Hg].
Qed.

(** [build_dataset] has no raising step: it always returns, and what it
    returns is made of the loops above. *)
Lemma build_dataset_eq words n_words :
  let top := most_common (n_words - 1) (Counter words) in
  let dictionary := assign_ids ((UNK, -1) :: top) in
  build_dataset words n_words =
    inr ((encode dictionary words).1,
         (UNK, (encode dictionary words).2) :: top,
         dictionary,
         dict_of_pairs (zip (dict_values dictionary) (dict_keys dictionary))).
Proof.
  intros top dictionary. unfold build_dataset. cbn [app].
  fold top. fold dictionary. by destruct (encode dictionary words).
Qed.

(** With a vocabulary of "UNK" alone, every token is encoded as 0. *)
Lemma encode_UNK_only words :
  encode [(UNK, 0)] words = (replicate (length words) 0, len words).
Proof.
  unfold encode, len.
  assert (∀ acc c,
    fold_left
      (λ '(data, unk_count) word,
         let index := dict_get_default [(UNK, 0)] word 0 in
         let unk_count := if index =? 0 then unk_count + 1 else unk_count in
         (data ++ [index], unk_count)) words (acc, c) =
    (acc ++ replicate (length words) 0, c + Z.of_nat (length words))) as Hgen.
  { induction words as [|w words IH]; intros acc c; cbn [fold_left].
    - cbn. by rewrite app_nil_r, Z.add_0_r.
    - assert (dict_get_default [(UNK, 0)] w 0 = 0) as ->.
      { unfold dict_get_default. cbn. by case_decide. }
      cbn [Z.eqb]. rewrite IH. rewrite <-app_assoc. cbn. f_equal. lia. }
  apply (Hgen [] 0).
Qed.

Lemma most_common_nonpos n c : n ≤ 0 → most_common n c = [].
Proof. intros Hn. unfold most_common. by rewrite (proj2 (Z.leb_le n 0)). Qed.

(** ** [build_dataset] when "UNK" is not one of the selected tokens *)

Local Abbreviation count_step :=
  (λ (c : dict string Z) (w : string), dict_set c w (dict_get_default c w 0 + 1)).

Lemma Counter_keys_from words (c : dict string Z) :
  NoDup (dict_keys c) →
  NoDup (dict_keys (fold_left count_step words c)) ∧
  ∀ w, w ∈ dict_keys (fold_left count_step words c) ↔ w ∈ dict_keys c ∨ w ∈ words.
Proof.
  revert c. induction words as [|w0 words IH]; intros c Hnd; cbn [fold_left].
  - split; [done|]. intros w. rewrite elem_of_nil. tauto.
  - destruct (IH (dict_set c w0 (dict_get_default c w0 0 + 1))) as [Hnd' Hin].
    { by apply dict_set_NoDup. }
    split; [done|]. intros w. rewrite Hin, dict_set_keys, elem_of_cons.
    case_decide as Hw0; [|rewrite elem_of_app, list_elem_of_singleton];
      intuition congruence.
Qed.

Lemma Counter_length words : len (Counter words) = distinct_token_count words.
Proof.
  unfold distinct_token_count, len. f_equal.
  destruct (Counter_keys_from words []) as [Hnd Hin]; [apply NoDup_nil_2|].
  rewrite <-(length_fmap fst (Counter words)).
  apply Permutation_length, NoDup_Permutation;
    [done|apply NoDup_remove_dups|].
  intros w. rewrite elem_of_remove_dups. unfold Counter. rewrite (Hin w).
  cbn. rewrite elem_of_nil. tauto.
Qed.

Lemma insert_desc_Permutation x l : insert_desc x l ≡ₚ x :: l.
Proof.
  induction l as [|y l IH]; cbn; [done|].
  case_match; [|done]. rewrite IH. apply Permutation_swap.
Qed.

Lemma sorted_desc_Permutation items : sorted_desc items ≡ₚ items.
Proof.
  unfold sorted_desc. induction items as [|x items IH]; cbn; [done|].
  by rewrite insert_desc_Permutation, IH.
Qed.

Lemma most_common_length n c :
  len (most_common n c) = Z.min (Z.max n 0) (len c).
Proof.
  unfold most_common, len. destruct (Z.leb_spec n 0); cbn [length]; [lia|].
  rewrite length_take, (Permutation_length (sorted_desc_Permutation c)). lia.
Qed.

Lemma most_common_NoDup n c :
  NoDup (dict_keys c) → NoDup (most_common n c).*1.
Proof.
  intros Hnd. unfold most_common. case_match; [apply NoDup_nil_2|].
  rewrite fmap_take. eapply sublist_NoDup; [|apply sublist_take].
  by rewrite (sorted_desc_Permutation c).
Qed.

(** Fresh tokens receive the next IDs in order. *)
Lemma assign_loop_fresh (top : list (string * Z)) (d : dict string Z) :
  NoDup top.*1 → (∀ k, k ∈ top.*1 → k ∉ dict_keys d) →
  assign_loop top d = d ++ zip top.*1 (seqZ (len d) (len top)).
Proof.
  revert d. induction top as [|[w c] top IH]; intros d Hnd Hfresh; cbn [fold_left].
  - cbn. by rewrite app_nil_r.
  - apply NoDup_cons in Hnd as [Hw Hnd]. cbn [fst].
    rewrite dict_set_fresh by (apply Hfresh; left).
    rewrite IH; [|done|].
    + rewrite <-app_assoc. f_equal. unfold len. cbn [fmap list_fmap length fst].
      rewrite (seqZ_cons _ (Z.of_nat (S _))) by lia.
      rewrite length_app, Nat2Z.inj_succ, Z.pred_succ. cbn.
      do 3 f_equal. lia.
    + intros k Hk. unfold dict_keys. rewrite fmap_app, not_elem_of_app.
      split; [apply Hfresh; by right|]. cbn.
      rewrite list_elem_of_singleton. intros ->. done.
Qed.

Lemma build_dataset_dictionary words n_words data count dictionary rev :
  UNK ∉ (most_common (n_words - 1) (Counter words)).*1 →
  build_dataset words n_words = inr (data, count, dictionary, rev) →
  let top := most_common (n_words - 1) (Counter words) in
  dictionary = (UNK, 0) :: zip top.*1 (seqZ 1 (len top)).
Proof.
  intros Hunk. rewrite build_dataset_eq. intros [= _ _ <- _] top.
  rewrite assign_ids_cons_UNK, assign_loop_fresh; [done| |].
  - apply most_common_NoDup.
    by destruct (Counter_keys_from words []) as [Hnd _]; [apply NoDup_nil_2|].
  - intros k Hk. cbn. rewrite list_elem_of_singleton. by intros ->.
Qed.

(** Outside the collision with the token "UNK", the dictionary has
    [min n_words (distinct_token_count + 1)] entries and "UNK" has ID 0. *)
Lemma build_dataset_size words n_words data count dictionary rev :
  1 ≤ n_words →
  UNK ∉ (most_common (n_words - 1) (Counter words)).*1 →
  build_dataset words n_words = inr (data, count, dictionary, rev) →
  len dictionary = Z.min n_words (distinct_token_count words + 1) ∧
  dict_get dictionary UNK = Some 0 ∧
  ∀ k, dict_get dictionary k = Some 0 → k = UNK.
Proof.
  intros Hn Hunk Hrun.
  pose proof (build_dataset_dictionary _ _ _ _ _ _ Hunk Hrun) as Hd.
  cbv zeta in Hd. subst dictionary.
  pose proof (most_common_length (n_words - 1) (Counter words)) as Hlen.
  rewrite Counter_length in Hlen.
  split_and!.
  - unfold len in *. cbn [length]. rewrite length_zip_with, length_fmap, length_seqZ.
    lia.
  - cbn. by rewrite decide_True.
  - intros k. cbn. case_decide; [done|]. intros Hk.
    apply dict_get_Some_elem, elem_of_zip_r, elem_of_seqZ in Hk. lia.
Qed.

Lemma zip_values_keys {K V} (d : dict K V) :
  zip (dict_values d) (dict_keys d) = (λ kv, (kv.2, kv.1)) <$> d.
Proof.
  unfold dict_values, dict_keys. induction d as [|[k v] d IH]; cbn; [done|].
  by rewrite IH.
Qed.

Lemma dict_of_pairs_NoDup {K V} `{EqDecision K} (pairs : list (K * V)) :
  NoDup pairs.*1 → dict_of_pairs pairs = pairs.
Proof.
  unfold dict_of_pairs.
  assert (∀ acc : dict K V, NoDup (acc ++ pairs).*1 →
    fold_left (λ d kv, dict_set d kv.1 kv.2) pairs acc = acc ++ pairs) as Hgen.
  { induction pairs as [|[k v] pairs IH]; intros acc Hnd; cbn [fold_left].
    - by rewrite app_nil_r.
    - cbn [fst snd]. rewrite dict_set_fresh.
      + rewrite IH; rewrite <-app_assoc; done.
      + rewrite fmap_app in Hnd. apply NoDup_app in Hnd as (_ & Hdisj & _).
        intros Hk. apply (Hdisj k Hk). cbn. left. }
  intros Hnd. by apply (Hgen []).
Qed.

(** Outside the collision with the token "UNK", the reversed dictionary
    maps every assigned ID back to its token. *)
Lemma build_dataset_round_trip words n_words data count dictionary rev t i :
  UNK ∉ (most_common (n_words - 1) (Counter words)).*1 →
  build_dataset words n_words = inr (data, count, dictionary, rev) →
  dict_get dictionary t = Some i → dict_get rev i = Some t.
Proof.
  intros Hunk Hrun Hget.
  pose proof (build_dataset_dictionary _ _ _ _ _ _ Hunk Hrun) as Hd.
  cbv zeta in Hd. rewrite build_dataset_eq in Hrun.
  injection Hrun as _ _ Hdict <-. rewrite Hdict.
  assert (NoDup (dict_values dictionary)) as Hvals.
  { rewrite Hd. unfold dict_values. cbn [fmap list_fmap snd].
    rewrite snd_zip by (rewrite length_fmap, length_seqZ; unfold len; lia).
    apply NoDup_cons. split; [|apply NoDup_seqZ].
    rewrite elem_of_seqZ. lia. }
  assert (length (dict_values dictionary) = length (dict_keys dictionary)) as Hlen.
  { unfold dict_values, dict_keys. by rewrite !length_fmap. }
  rewrite dict_of_pairs_NoDup by (by rewrite fst_zip by lia).
  apply dict_get_elem_NoDup.
  - unfold dict_keys at 1. by rewrite fst_zip by lia.
  - rewrite zip_values_keys. apply list_elem_of_fmap.
    exists (t, i). split; [done|]. by apply dict_get_Some_elem.
Qed.

(** ** [build_dataset]: the claims *)

(** C3 (as amended): on the words a b a c a b with [n_words = 3] the
    dictionary is UNK -> 0, a -> 1, b -> 2, and the frequency stored for
    "UNK" is 1, the single occurrence of "c". *)
Theorem build_dataset_example :
  build_dataset ["a"; "b"; "a"; "c"; "a"; "b"] 3 =
    inr ([1; 2; 1; 0; 1; 2],
         [("UNK", 1); ("a", 3); ("b", 2)],
         [("UNK", 0); ("a", 1); ("b", 2)],
         [(0, "UNK"); (1, "a"); (2, "b")])
  ∧ unk_frequency (build_dataset ["a"; "b"; "a"; "c"; "a"; "b"] 3) = Some 1.
Proof. split; reflexivity. Qed.

(** C3 as stated fails: the stored "UNK" frequency of the example is not 2. *)
Lemma build_dataset_example_unk_not_2 :
  unk_frequency (build_dataset ["a"; "b"; "a"; "c"; "a"; "b"] 3) ≠ Some 2.
Proof. cbv. discriminate. Qed.

(** C6 (as amended): [build_dataset] raises for no [n_words]; below 1 it
    returns the vocabulary of "UNK" alone, every token encoded as 0 and
    counted as unknown. *)
Theorem build_dataset_never_raises words n_words :
  (∃ v, build_dataset words n_words = inr v) ∧
  (n_words < 1 →
   build_dataset words n_words =
     inr (replicate (length words) 0, [(UNK, len words)],
          [(UNK, 0)], [(0, UNK)])).
Proof.
  split; [rewrite build_dataset_eq; eauto|].
  intros Hn. rewrite build_dataset_eq, most_common_nonpos by lia.
  change (assign_ids [(UNK, -1)]) with [(UNK, 0)].
  by rewrite encode_UNK_only.
Qed.

Lemma build_dataset_never_raises_witness :
  -2 < 1 ∧
  build_dataset ["a"; "b"] (-2) = inr ([0; 0], [(UNK, 2)], [(UNK, 0)], [(0, UNK)]).
Proof.
  split; [lia|]. apply (proj2 (build_dataset_never_raises ["a"; "b"] (-2))). lia.
Defined.

(** C6 as stated fails: with [n_words = 0] the call returns. *)
Lemma build_dataset_zero_returns :
  build_dataset ["a"] 0 = inr ([0], [(UNK, 1)], [(UNK, 0)], [(0, UNK)])
  ∧ ¬ ∃ e : exn, build_dataset ["a"] 0 = inl e.
Proof. split; [reflexivity|]. intros [e He]. discriminate He. Qed.

(** C10: when "UNK" is itself one of the selected tokens, its entry is
    overwritten with a positive ID, no key of the dictionary has ID 0, and
    the reversed dictionary has no entry for 0. *)
Theorem build_dataset_UNK_overwritten
    words n_words data count dictionary reversed_dictionary :
  UNK ∈ words →
  UNK ∈ (most_common (n_words - 1) (Counter words)).*1 →
  build_dataset words n_words =
    inr (data, count, dictionary, reversed_dictionary) →
  (∃ i, dict_get dictionary UNK = Some i ∧ i ≠ 0) ∧
  (∀ k, dict_get dictionary k ≠ Some 0) ∧
  dict_get reversed_dictionary 0 = None.
Proof.
  intros _ Htop. rewrite build_dataset_eq. intros [= _ _ <- <-].
  pose proof (assign_ids_UNK_again _ Htop) as (_ & _ & Hz).
  set (d := assign_ids _) in *.
  assert (∀ k, dict_get d k ≠ Some 0) as Hget.
  { intros k Hk. apply dict_get_Some_elem in Hk. by eapply Hz. }
  split_and!; [|done|].
  - destruct (dict_get_is_Some d UNK) as [i Hi]; [apply assign_ids_has_UNK|].
    exists i. split; [done|]. intros ->. by eapply Hget.
  - destruct (dict_get (dict_of_pairs _) 0) as [t|] eqn:Hr; [|done].
    apply dict_of_pairs_get, elem_of_zip_l in Hr.
    apply list_elem_of_fmap in Hr as ([k v] & Hv & Hin). cbn in Hv. subst v.
    exfalso. by eapply Hz.
Qed.

Lemma build_dataset_UNK_overwritten_witness :
  (UNK ∈ ["UNK"; "UNK"; "a"] ∧
   UNK ∈ (most_common (3 - 1) (Counter ["UNK"; "UNK"; "a"])).*1 ∧
   build_dataset ["UNK"; "UNK"; "a"] 3 =
     inr ([1; 1; 1], [("UNK", 0); ("UNK", 2); ("a", 1)],
          [("UNK", 1); ("a", 1)], [(1, "a")])) ∧
  (∃ i, dict_get [("UNK", 1); ("a", 1)] UNK = Some i ∧ i ≠ 0) ∧
  (∀ k, dict_get [("UNK", 1); ("a", 1)] k ≠ Some 0) ∧
  dict_get [(1, "a")] 0 = None.
Proof.
  split; [split_and!; [left|vm_compute; left|reflexivity]|].
  apply (build_dataset_UNK_overwritten ["UNK"; "UNK"; "a"] 3
           [1; 1; 1] [("UNK", 0); ("UNK", 2); ("a", 1)]).
  - left.
  - vm_compute. left.
  - reflexivity.
Defined.

(** C2 fails on the words "UNK" alone with [n_words = 2]: the dictionary
    returned has the single entry UNK -> 1, one entry short of
    [min n_words (distinct_token_count + 1) = 2], and no key has ID 0. *)
Theorem build_dataset_UNK_token_size :
  build_dataset ["UNK"] 2 =
    inr ([1], [("UNK", 0); ("UNK", 1)], [("UNK", 1)], [(1, "UNK")])
  ∧ len [("UNK", 1)] ≠ Z.min 2 (distinct_token_count ["UNK"] + 1)
  ∧ dict_get [("UNK", 1)] UNK ≠ Some 0.
Proof. split_and!; [reflexivity|cbv; discriminate|cbv; discriminate]. Qed.

(** C5 fails on the words UNK UNK a with [n_words = 3]: "UNK" and "a" both
    receive ID 1, and the reversed dictionary maps 1 to "a". *)
Theorem build_dataset_UNK_token_round_trip :
  build_dataset ["UNK"; "UNK"; "a"] 3 =
    inr ([1; 1; 1], [("UNK", 0); ("UNK", 2); ("a", 1)],
         [("UNK", 1); ("a", 1)], [(1, "a")])
  ∧ dict_get [("UNK", 1); ("a", 1)] "UNK" = Some 1
  ∧ dict_get [(1, "a")] 1 = Some "a"
  ∧ dict_get [(1, "a")] 1 ≠ Some "UNK".
Proof. split_and!; [reflexivity..|cbv; discriminate]. Qed.

(** ** The sentence encoder: [embed] is set once *)

Section EmbeddingFacts.
Context {Module_ Tensor : Type}.
Variable hub_Module : string → nat → result Module_.
Variable tf_cast_string : Tensor → result Tensor.
Variable tf_squeeze : Tensor → result Tensor.
Variable apply_default : Module_ → Tensor → result Tensor.
Variable output_size : Module_ → result Z.

Local Abbreviation UniversalEmbedding' :=
  (UniversalEmbedding hub_Module tf_cast_string tf_squeeze apply_default).
Local Abbreviation GetEmbeddingSize' := (GetEmbeddingSize hub_Module output_size).
Local Abbreviation step' :=
  (step hub_Module tf_cast_string tf_squeeze apply_default output_size).
Local Abbreviation run' :=
  (run hub_Module tf_cast_string tf_squeeze apply_default output_size).

(** With the handle set, a call goes straight to the encoder. *)
Lemma UniversalEmbedding_loaded x st m :
  embed st = Some m →
  UniversalEmbedding' x st =
    (x ← tf_cast_string x; x ← tf_squeeze x; apply_default m x, st).
Proof. intros Hm. unfold UniversalEmbedding. by rewrite Hm. Qed.

Lemma GetEmbeddingSize_loaded st m :
  embed st = Some m → GetEmbeddingSize' st = (output_size m, st).
Proof. intros Hm. unfold GetEmbeddingSize. by rewrite Hm. Qed.

Lemma step_loaded c st m : embed st = Some m → step' c st = st.
Proof.
  intros Hm. destruct c as [x|]; cbn.
  - by rewrite (UniversalEmbedding_loaded x st m).
  - by rewrite (GetEmbeddingSize_loaded st m).
Qed.

(** The first call of a fresh process fetches the encoder once and, when
    the fetch succeeds, sets the handle. *)
Lemma step_first c st m :
  embed st = None →
  hub_Module encoder_url (fetches st) = inr m →
  embed (step' c st) = Some m ∧ fetches (step' c st) = S (fetches st).
Proof.
  intros Hnone Hfetch.
  destruct c as [x|]; cbn; unfold UniversalEmbedding, GetEmbeddingSize;
    rewrite Hnone; cbn; rewrite Hfetch; done.
Qed.

(** C9: once [embed] holds a handle, whatever calls follow, to either
    accessor and in any order, leave that handle in place, fetch nothing
    and print nothing. *)
Theorem embed_set_once (calls : list (call Tensor)) st m :
  embed st = Some m →
  embed (run' calls st) = Some m ∧
  fetches (run' calls st) = fetches st ∧
  stdout (run' calls st) = stdout st.
Proof.
  intros Hm. assert (run' calls st = st) as ->; [|done].
  unfold run. induction calls as [|c calls IH]; cbn; [done|].
  by rewrite (step_loaded c st m).
Qed.
End EmbeddingFacts.

Lemma embed_set_once_witness :
  let hub_Module := λ (url : string) (n : nat), inr url : result string in
  let tf_cast_string := λ x : list string, inr x : result (list string) in
  let tf_squeeze := λ x : list string, inr x : result (list string) in
  let apply_default := λ (m : string) (x : list string), inr x : result (list string) in
  let output_size := λ m : string, inr 512 : result Z in
  let st0 := {| embed := None; stdout := []; fetches := 0 |} in
  let st1 := step hub_Module tf_cast_string tf_squeeze apply_default output_size
               CallGetEmbeddingSize st0 in
  let calls := [CallUniversalEmbedding ["hi"]; CallGetEmbeddingSize] in
  let st2 := run hub_Module tf_cast_string tf_squeeze apply_default output_size
               calls st1 in
  embed st1 = Some encoder_url ∧
  (embed st2 = Some encoder_url ∧ fetches st2 = fetches st1 ∧ stdout st2 = stdout st1).
Proof.
  intros. split; [reflexivity|].
  apply (embed_set_once hub_Module tf_cast_string tf_squeeze apply_default
           output_size calls st1 encoder_url).
  reflexivity.
Defined.

(** ** Sequences, loops and the deque *)

Lemma bind_inr {A B} (m : result A) (f : A → result B) v :
  m ≫= f = inr v → ∃ a, m = inr a ∧ f a = inr v.
Proof. destruct m as [e|a]; cbn; [done|eauto]. Qed.

Lemma bind_inl {A B} (m : result A) (f : A → result B) e :
  m ≫= f = inl e → m = inl e ∨ ∃ a, m = inr a ∧ f a = inl e.
Proof. destruct m as [e'|a]; cbn; [intros [= ->]; by left|eauto]. Qed.

Lemma norm_index_nonneg n i :
  0 ≤ i →
  norm_index n i = if i <? Z.of_nat n then inr (Z.to_nat i) else inl IndexError.
Proof.
  intros Hi. unfold norm_index.
  rewrite (proj2 (Z.leb_le 0 i) Hi). cbn [andb].
  destruct (i <? Z.of_nat n); [done|].
  rewrite (proj2 (Z.ltb_ge i 0) Hi), andb_false_r. done.
Qed.

Lemma norm_index_inl n i e : norm_index n i = inl e → e = IndexError.
Proof. unfold norm_index. repeat case_match; by intros [= <-]. Qed.

Lemma getitem_nonneg {A} (l : list A) i :
  0 ≤ i →
  getitem l i =
    match l !! Z.to_nat i with Some x => inr x | None => inl IndexError end.
Proof.
  intros Hi. unfold getitem. rewrite norm_index_nonneg by done.
  destruct (Z.ltb_spec i (Z.of_nat (length l))) as [Hlt|Hge]; cbn.
  - done.
  - rewrite lookup_ge_None_2; [done|lia].
Qed.

Lemma getitem_inl {A} (l : list A) i e : getitem l i = inl e → e = IndexError.
Proof.
  unfold getitem. intros [He|(idx & _ & He)]%bind_inl.
  - by eapply norm_index_inl.
  - destruct (l !! idx); [discriminate He|by injection He as <-].
Qed.

Lemma setitem_nonneg {A} (l : list A) i x :
  0 ≤ i →
  setitem l i x =
    if i <? len l then inr (<[Z.to_nat i := x]> l) else inl IndexError.
Proof.
  intros Hi. unfold setitem, len. rewrite norm_index_nonneg by done.
  by destruct (i <? Z.of_nat (length l)).
Qed.

Lemma setitem_inl {A} (l : list A) i x e : setitem l i x = inl e → e = IndexError.
Proof.
  unfold setitem. intros [He|(idx & _ & He)]%bind_inl.
  - by eapply norm_index_inl.
  - done.
Qed.

Lemma setitem_length {A} (l l' : list A) i x :
  setitem l i x = inr l' → length l' = length l.
Proof.
  unfold setitem. intros (idx & _ & [= <-])%bind_inr. apply length_insert.
Qed.

Lemma store_inl `{Platform} a i z e :
  store a i z = inl e → e = IndexError ∨ e = OverflowError.
Proof.
  unfold store. intros [He|(idx & _ & [He|(v & _ & He)]%bind_inl)]%bind_inl.
  - left. by eapply norm_index_inl.
  - right. by eapply to_int32_inl.
  - done.
Qed.

Lemma store_nonneg `{Platform} a i z :
  0 ≤ i → is_int32 z →
  store a i z =
    if i <? len a then inr (<[Z.to_nat i := Some z]> a) else inl IndexError.
Proof.
  intros Hi Hz. unfold store, len. rewrite norm_index_nonneg by done.
  destruct (i <? Z.of_nat (length a)); [|done].
  cbn. by rewrite to_int32_exact.
Qed.

Lemma store_length `{Platform} a a' i z :
  store a i z = inr a' → length a' = length a.
Proof.
  unfold store. intros (idx & _ & (v & _ & [= <-])%bind_inr)%bind_inr.
  apply length_insert.
Qed.

Lemma store2_inl `{Platform} a i j z e :
  store2 a i j z = inl e → e = IndexError ∨ e = OverflowError.
Proof.
  unfold store2. intros [He|(row & _ & [He|(row' & _ & He)]%bind_inl)]%bind_inl.
  - left. by eapply getitem_inl.
  - by eapply store_inl.
  - left. by eapply setitem_inl.
Qed.



Lemma getitem_elem {A} (l : list A) i x : getitem l i = inr x → x ∈ l.
Proof.
  unfold getitem. intros (idx & _ & Hx)%bind_inr.
  destruct (l !! idx) as [y|] eqn:Hy; [|done]. injection Hx as <-.
  by eapply list_elem_of_lookup_2.
Qed.

(** Writing column 0 of a row of one cell. *)
Lemma store2_column `{Platform} a k row z :
  0 ≤ k → a !! Z.to_nat k = Some row → length row = 1%nat → is_int32 z →
  store2 a k 0 z = inr (<[Z.to_nat k := [Some z]]> a).
Proof.
  intros Hk Hrow Hlen Hz. unfold store2.
  rewrite getitem_nonneg, Hrow by done. cbn.
  destruct row as [|c [|??]]; try done.
  rewrite store_nonneg by done.
  change (0 <? len [c]) with true. cbn.
  rewrite setitem_nonneg by done.
  apply lookup_lt_Some in Hrow.
  rewrite (proj2 (Z.ltb_lt k (len a))); [done|unfold len; lia].
Qed.

(** A store changes no shape. *)
Lemma store2_shape `{Platform} a a' i j z :
  store2 a i j z = inr a' →
  length a' = length a ∧
  (Forall (λ row, length row = 1%nat) a →
   Forall (λ row, length row = 1%nat) a').
Proof.
  unfold store2.
  intros (row & Hrow & (row' & Hrow' & Ha)%bind_inr)%bind_inr.
  split; [by eapply setitem_length|].
  intros Hall. apply store_length in Hrow'.
  unfold getitem in Hrow. apply bind_inr in Hrow as (idx & _ & Hrow).
  destruct (a !! idx) as [r|] eqn:Hr; [|done]. injection Hrow as ->.
  unfold setitem in Ha. apply bind_inr in Ha as (idx' & _ & [= <-]).
  apply Forall_insert; [done|].
  rewrite Hrow'. by apply (Forall_lookup_1 (λ row, length row = 1%nat) a idx).
Qed.

(** What the allocations of lines 48, 49 and 57 and the deque of line 51
    come to. *)
Lemma ndarray1_eq `{Platform} n :
  ndarray1 n =
    if (n <? 0) || (2 ^ 61 <=? n) then inl ValueError
    else if array_limit <? n then inl MemoryError
    else inr (replicate (Z.to_nat n) None).
Proof.
  unfold ndarray1, array_alloc, array_nbytes, ssize_t_max.
  cbn [existsb foldr orb].
  destruct (Z.ltb_spec n 0), (Z.leb_spec (2 ^ 61) n),
    (Z.ltb_spec (2 ^ 63 - 1) n), (Z.eqb_spec n 0),
    (Z.ltb_spec (2 ^ 63 - 1) (4 * n)), (Z.ltb_spec array_limit (n * 1)),
    (Z.ltb_spec array_limit n); cbn; try done; lia.
Qed.

Lemma ndarray2_eq `{Platform} n :
  ndarray2 n 1 =
    if (n <? 0) || (2 ^ 61 <=? n) then inl ValueError
    else if array_limit <? n then inl MemoryError
    else inr (replicate (Z.to_nat n) [None]).
Proof.
  unfold ndarray2, array_alloc, array_nbytes, ssize_t_max.
  cbn [existsb foldr orb].
  change (1 <? 0) with false. change (2 ^ 63 - 1 <? 1) with false.
  change (1 =? 0) with false. cbn [orb].
  destruct (Z.ltb_spec n 0), (Z.leb_spec (2 ^ 61) n),
    (Z.ltb_spec (2 ^ 63 - 1) n), (Z.eqb_spec n 0),
    (Z.ltb_spec (2 ^ 63 - 1) (4 * n)),
    (Z.ltb_spec (2 ^ 63 - 1) (4 * n * 1)),
    (Z.ltb_spec (2 ^ 63 - 1) (4 * 1)),
    (Z.ltb_spec array_limit (n * (1 * 1))),
    (Z.ltb_spec array_limit n); cbn; try done; lia.
Qed.

Lemma ndarray1_inr `{Platform} n :
  0 ≤ n ≤ array_limit → ndarray1 n = inr (replicate (Z.to_nat n) None).
Proof.
  intros Hn. pose proof array_limit_range. rewrite ndarray1_eq.
  destruct (Z.ltb_spec n 0), (Z.leb_spec (2 ^ 61) n),
    (Z.ltb_spec array_limit n); cbn; try done; lia.
Qed.

Lemma ndarray2_inr `{Platform} n :
  0 ≤ n ≤ array_limit → ndarray2 n 1 = inr (replicate (Z.to_nat n) [None]).
Proof.
  intros Hn. pose proof array_limit_range. rewrite ndarray2_eq.
  destruct (Z.ltb_spec n 0), (Z.leb_spec (2 ^ 61) n),
    (Z.ltb_spec array_limit n); cbn; try done; lia.
Qed.

Lemma ndarray1_success `{Platform} n a :
  ndarray1 n = inr a →
  0 ≤ n ≤ array_limit ∧ a = replicate (Z.to_nat n) None.
Proof.
  rewrite ndarray1_eq.
  destruct (Z.ltb_spec n 0), (Z.leb_spec (2 ^ 61) n),
    (Z.ltb_spec array_limit n); cbn; try done.
  intros [= <-]. split; [lia|done].
Qed.

Lemma ndarray2_success `{Platform} n a :
  ndarray2 n 1 = inr a →
  0 ≤ n ≤ array_limit ∧ a = replicate (Z.to_nat n) [None].
Proof.
  rewrite ndarray2_eq.
  destruct (Z.ltb_spec n 0), (Z.leb_spec (2 ^ 61) n),
    (Z.ltb_spec array_limit n); cbn; try done.
  intros [= <-]. split; [lia|done].
Qed.

Lemma deque_new_inr n :
  0 ≤ n ≤ ssize_t_max →
  deque_new n = inr {| items := []; maxlen := Z.to_nat n |}.
Proof.
  intros Hn. unfold deque_new, ssize_t_min, ssize_t_max in *.
  destruct (Z.ltb_spec n (- 2 ^ 63)), (Z.ltb_spec (2 ^ 63 - 1) n),
    (Z.ltb_spec n 0); cbn; try done; lia.
Qed.

Lemma deque_new_success n q :
  deque_new n = inr q →
  0 ≤ n ≤ ssize_t_max ∧ q = {| items := []; maxlen := Z.to_nat n |}.
Proof.
  unfold deque_new, ssize_t_min, ssize_t_max.
  destruct (Z.ltb_spec n (- 2 ^ 63)), (Z.ltb_spec (2 ^ 63 - 1) n),
    (Z.ltb_spec n 0); cbn; try done.
  intros [= <-]. split; [lia|done].
Qed.

Lemma new_list_inr `{Platform} {A} (l : list A) :
  len l ≤ list_limit → new_list l = inr l.
Proof.
  intros Hl. unfold new_list.
  by rewrite (proj2 (Z.ltb_ge list_limit (len l))).
Qed.

Lemma new_list_success `{Platform} {A} (l l' : list A) :
  new_list l = inr l' → len l ≤ list_limit ∧ l' = l.
Proof.
  unfold new_list. destruct (Z.ltb_spec list_limit (len l)); [done|].
  by intros [= <-].
Qed.

Lemma new_list_inl `{Platform} {A} (l : list A) e :
  new_list l = inl e → e = MemoryError.
Proof. unfold new_list. case_match; [by intros [= <-]|done]. Qed.

Lemma slice_0 {A} (l : list A) b : 0 ≤ b → slice l 0 b = take (Z.to_nat b) l.
Proof.
  intros Hb. unfold slice, clamp, len. change (0 <? 0) with false.
  rewrite (proj2 (Z.ltb_ge b 0) Hb).
  rewrite (Z.min_l 0) by lia. rewrite Z.sub_0_r.
  change (Z.to_nat 0) with 0%nat. rewrite drop_0.
  destruct (Z.min_spec b (Z.of_nat (length l))) as [[? ->]|[? ->]]; [done|].
  rewrite Nat2Z.id. rewrite !take_ge; [done|lia..].
Qed.

Lemma for_each_inv {A S} (I : nat → S → Prop) (xs : list A) body s :
  I 0%nat s →
  (∀ i x s, xs !! i = Some x → I i s → ∃ s', body x s = inr s' ∧ I (Datatypes.S i) s') →
  ∃ s', for_each xs body s = inr s' ∧ I (length xs) s'.
Proof.
  revert I s. induction xs as [|x xs IH]; intros I s H0 Hstep; cbn.
  - by exists s.
  - destruct (Hstep 0%nat x s) as (s1 & -> & H1); [done..|]. cbn.
    apply (IH (λ i, I (Datatypes.S i))); [done|].
    intros i y t Hy Ht. by apply (Hstep (Datatypes.S i)).
Qed.

(** A loop raises only what its body raises. *)
Lemma for_each_inl {A S} (P : exn → Prop) (xs : list A) body (s : S) e :
  (∀ x s e, body x s = inl e → P e) → for_each xs body s = inl e → P e.
Proof.
  intros Hbody. revert s. induction xs as [|x xs IH]; intros s; cbn; [done|].
  intros [He|(s' & _ & He)]%bind_inl; eauto.
Qed.

Lemma lookup_enumerate {A} (l : list A) j jz x :
  enumerate l !! j = Some (jz, x) ↔ jz = Z.of_nat j ∧ l !! j = Some x.
Proof.
  unfold enumerate, range. rewrite lookup_zip_with_Some. split.
  - intros (jz' & x' & [= <- <-] & Hj & Hx). apply lookup_seqZ in Hj. split; [lia|done].
  - intros [-> Hx]. exists (Z.of_nat j), x. split_and!; [done| |done].
    apply lookup_seqZ. apply lookup_lt_Some in Hx. unfold len. lia.
Qed.

Lemma length_enumerate {A} (l : list A) : length (enumerate l) = length l.
Proof.
  unfold enumerate, range, len.
  rewrite length_zip_with, length_seqZ. lia.
Qed.

(** The deque keeps the last [maxlen] of what was put in. *)
Lemma deque_append_spec q x :
  (length (items q) ≤ maxlen q)%nat →
  items (deque_append q x) =
    drop (length (items q) + 1 - maxlen q) (items q ++ [x]) ∧
  maxlen (deque_append q x) = maxlen q.
Proof.
  intros Hle. unfold deque_append. cbn [items maxlen]. split; [|done].
  rewrite length_app. change (length [x]) with 1%nat.
  destruct (Nat.ltb_spec (maxlen q) (length (items q) + 1)) as [Hlt|Hge].
  - replace (length (items q) + 1 - maxlen q)%nat with 1%nat by lia. done.
  - replace (length (items q) + 1 - maxlen q)%nat with 0%nat by lia. done.
Qed.

Lemma deque_extend_spec q xs :
  (length (items q) ≤ maxlen q)%nat →
  items (deque_extend q xs) =
    drop (length (items q) + length xs - maxlen q) (items q ++ xs) ∧
  maxlen (deque_extend q xs) = maxlen q.
Proof.
  unfold deque_extend. revert q. induction xs as [|x xs IH]; intros q Hle; cbn.
  - rewrite app_nil_r.
    replace (length (items q) + 0 - maxlen q)%nat with 0%nat by lia. done.
  - destruct (deque_append_spec q x Hle) as [Hit Hmax].
    assert (length (items (deque_append q x)) =
            (length (items q) + 1 - (length (items q) + 1 - maxlen q))%nat) as Hlen.
    { rewrite Hit, length_drop, length_app. cbn. lia. }
    destruct (IH (deque_append q x)) as [-> ->]; [lia|].
    split; [|done]. rewrite Hmax, Hlen, Hit.
    rewrite (cons_middle x (items q) xs), app_assoc.
    rewrite <-(drop_app_le (items q ++ [x]) xs) by (rewrite length_app; cbn; lia).
    rewrite drop_drop. f_equal. lia.
Qed.

(** ** [generate_batch]: the window *)

Lemma window_start_bounds sw data i :
  2 * sw + 1 ≤ len data →
  0 ≤ window_start sw data i ∧ window_start sw data i + (2 * sw + 1) ≤ len data.
Proof.
  intros Hlen. unfold window_start.
  pose proof (Z.mod_pos_bound i (len data - (2 * sw + 1) + 1)). lia.
Qed.

Lemma window_start_0 sw data : window_start sw data 0 = 0.
Proof. unfold window_start. apply Zmod_0_l. Qed.

Lemma window_start_succ sw data i :
  2 * sw + 1 ≤ len data → 0 ≤ i →
  window_start sw data (i + 1) =
    if window_start sw data i + (2 * sw + 1) =? len data then 0
    else window_start sw data i + 1.
Proof.
  intros Hlen Hi. unfold window_start.
  set (P := len data - (2 * sw + 1) + 1).
  assert (0 < P) as HP by (unfold P; lia).
  pose proof (Z.mod_pos_bound i P HP) as Hr.
  pose proof (Z.div_mod i P ltac:(lia)) as Hdm.
  destruct (Z.eqb_spec (i mod P + (2 * sw + 1)) (len data)) as [Heq|Hne].
  - assert (i mod P = P - 1) as Hm by (unfold P in *; lia).
    symmetry. apply (Z.mod_unique_pos _ _ (i / P + 1)); [lia|].
    rewrite Z.mul_add_distr_l. lia.
  - assert (i mod P + 1 < P) as Hm by (unfold P in *; lia).
    symmetry. apply (Z.mod_unique_pos _ _ (i / P)); lia.
Qed.

Lemma advance_window_ok data span s buffer :
  (1 ≤ span)%nat → (s + span ≤ length data)%nat →
  holds_window data span s buffer →
  ∃ buffer',
    advance_window (Z.of_nat span) data buffer (Z.of_nat s + Z.of_nat span) =
      inr (buffer',
           (if Z.of_nat s + Z.of_nat span =? len data then 0 else Z.of_nat s + 1)
           + Z.of_nat span) ∧
    holds_window data span
      (if Z.of_nat s + Z.of_nat span =? len data then 0 else S s) buffer'.
Proof.
  intros Hspan Hfit (Hmax & Hlen & Hitems). unfold advance_window.
  destruct (Z.eqb_spec (Z.of_nat s + Z.of_nat span) (len data)) as [Hend|Hmore].
  - eexists. split; [reflexivity|].
    destruct (deque_extend_spec buffer (slice data 0 (Z.of_nat span)))
      as [Hit' Hmax']; [lia|].
    rewrite slice_0, Nat2Z.id in Hit', Hmax' |- * by lia.
    assert (length (take span data) = span) as Htake by (rewrite length_take; lia).
    rewrite Htake, Hlen, Hmax in Hit'.
    replace (span + span - span)%nat with (length (items buffer)) in Hit' by lia.
    rewrite drop_app_length in Hit'.
    split_and!; [congruence|by rewrite Hit'|].
    intros j Hj. rewrite Hit'. by rewrite lookup_take_lt.
  - unfold len in Hmore.
    assert (is_Some (data !! (s + span)%nat)) as [x Hx].
    { apply lookup_lt_is_Some. lia. }
    rewrite getitem_nonneg by lia.
    replace (Z.to_nat (Z.of_nat s + Z.of_nat span)) with (s + span)%nat by lia.
    rewrite Hx. cbn. eexists. split; [f_equal; f_equal; lia|].
    destruct (deque_append_spec buffer x) as [Hit' Hmax']; [lia|].
    rewrite Hlen, Hmax in Hit'.
    replace (span + 1 - span)%nat with 1%nat in Hit' by lia.
    split_and!; [congruence|rewrite Hit', length_drop, length_app; cbn; lia|].
    intros j Hj. rewrite Hit', lookup_drop.
    destruct (decide (1 + j < span)%nat) as [Hlt|Hge].
    + rewrite lookup_app_l by lia. rewrite Hitems by lia. f_equal. lia.
    + rewrite lookup_app_r by lia.
      replace (1 + j - length (items buffer))%nat with 0%nat by lia.
      cbn. rewrite <-Hx. f_equal. lia.
Qed.

(** The first window: the buffer right after line 54. *)
Lemma initial_window data span :
  (span ≤ length data)%nat →
  holds_window data span 0
    (deque_extend {| items := []; maxlen := span |}
       (slice data 0 (0 + Z.of_nat span))).
Proof.
  intros Hfit. rewrite Z.add_0_l, slice_0, Nat2Z.id by lia.
  destruct (deque_extend_spec {| items := []; maxlen := span |} (take span data))
    as [Hit' Hmax']; [cbn; lia|].
  cbn in Hit', Hmax'.
  assert (length (take span data) = span) as Htake by (rewrite length_take; lia).
  rewrite Htake in Hit'. replace (span - span)%nat with 0%nat in Hit' by lia.
  rewrite drop_0 in Hit'.
  split_and!; [done|by rewrite Hit'|].
  intros j Hj. rewrite Hit'. by rewrite lookup_take_lt.
Qed.

(** ** [generate_batch]: sampling and the pairs of a group *)

Lemma elem_of_context_words sw span w :
  w ∈ filter (λ w, w ≠ sw) (range span) ↔ (0 ≤ w < span) ∧ w ≠ sw.
Proof.
  unfold range. rewrite list_elem_of_filter, elem_of_seqZ. split; [|lia].
  intros [? ?]. split; [lia|done].
Qed.

Lemma filter_all {A} (P : A → Prop) `{∀ x, Decision (P x)} (l : list A) :
  Forall P l → filter P l = l.
Proof.
  induction 1 as [|x l Hx Hl IH]; [done|].
  by rewrite filter_cons_True, IH.
Qed.

Lemma context_words_length sw :
  0 ≤ sw → len (filter (λ w, w ≠ sw) (range (2 * sw + 1))) = 2 * sw.
Proof.
  intros Hsw. unfold range, len.
  replace (2 * sw + 1) with (sw + (1 + sw)) by lia.
  rewrite seqZ_app by lia. rewrite (seqZ_cons (0 + sw)) by lia.
  rewrite filter_app, filter_cons_False by (intros Hne; apply Hne; lia).
  rewrite !filter_all by (apply Forall_seqZ; lia).
  rewrite length_app, !length_seqZ. lia.
Qed.

Section Sampling.
Context `{RandomSource R} `{Platform}.

Lemma random_sample_eq (rng : R) population k :
  0 ≤ k ≤ len population →
  random_sample rng population k = inr (draw rng population (Z.to_nat k)).
Proof.
  intros Hk. unfold random_sample.
  rewrite (proj2 (Z.ltb_ge k 0)), (proj2 (Z.ltb_ge (len population) k)) by lia.
  done.
Qed.

Lemma random_sample_inr (rng rng' : R) population k ws :
  random_sample rng population k = inr (ws, rng') →
  0 ≤ k ≤ len population ∧ length ws = Z.to_nat k ∧ ws ⊆ population.
Proof.
  unfold random_sample.
  destruct (Z.ltb_spec k 0); [done|].
  destruct (Z.ltb_spec (len population) k); [done|]. cbn.
  intros Hd. injection Hd as Hd.
  pose proof (draw_length rng population (Z.to_nat k)) as Hlen.
  pose proof (draw_subseteq rng population (Z.to_nat k)) as Hsub.
  rewrite Hd in Hlen, Hsub. cbn in Hlen, Hsub.
  split_and!; [lia|lia| |done]. apply Hlen. unfold len in *. lia.
Qed.

Lemma random_sample_inl (rng : R) population k e :
  random_sample rng population k = inl e → e = ValueError.
Proof. unfold random_sample. case_match; [by intros [= <-]|done]. Qed.

(** Lines 59-61 fill the cells of group [i], one per sampled position, and
    leave the other cells alone. *)
Lemma emit_pairs_ok num_skips skip_window i buffer ws batch labels target :
  0 ≤ skip_window → 0 ≤ i * num_skips →
  Forall is_int32 (items buffer) →
  items buffer !! Z.to_nat skip_window = Some target →
  (∀ w, w ∈ ws → 0 ≤ w ∧ is_Some (items buffer !! Z.to_nat w)) →
  (Z.to_nat (i * num_skips) + length ws ≤ length batch)%nat →
  length labels = length batch →
  Forall (λ row, length row = 1%nat) labels →
  ∃ batch' labels',
    emit_pairs num_skips skip_window i buffer ws (batch, labels) =
      inr (batch', labels') ∧
    length batch' = length batch ∧ length labels' = length labels ∧
    Forall (λ row, length row = 1%nat) labels' ∧
    (∀ k, (k < Z.to_nat (i * num_skips)
           ∨ Z.to_nat (i * num_skips) + length ws ≤ k)%nat →
          batch' !! k = batch !! k ∧ labels' !! k = labels !! k) ∧
    (∀ j w, ws !! j = Some w →
       batch' !! (Z.to_nat (i * num_skips) + j)%nat = Some (Some target) ∧
       ∃ c, items buffer !! Z.to_nat w = Some c ∧
            labels' !! (Z.to_nat (i * num_skips) + j)%nat = Some [Some c]).
Proof.
  intros Hsw Hbase Htok Htarget Hws Hroom Hlabels Hrows.
  assert (is_int32 target) as Htarget32.
  { by eapply (Forall_lookup_1 is_int32 (items buffer)). }
  remember (Z.to_nat (i * num_skips)) as base eqn:Hbase_eq.
  pose (I := λ (j : nat) (out : arrays),
    length out.1 = length batch ∧ length out.2 = length labels ∧
    Forall (λ row, length row = 1%nat) out.2 ∧
    (∀ k, (k < base ∨ base + j ≤ k)%nat →
          out.1 !! k = batch !! k ∧ out.2 !! k = labels !! k) ∧
    (∀ j' w, (j' < j)%nat → ws !! j' = Some w →
       out.1 !! (base + j')%nat = Some (Some target) ∧
       ∃ c, items buffer !! Z.to_nat w = Some c ∧
            out.2 !! (base + j')%nat = Some [Some c])).
  destruct (for_each_inv I (enumerate ws)
    (λ '(j, context_word) '(batch, labels),
       target ← getitem (items buffer) skip_window;
       batch ← store batch (i * num_skips + j) target;
       context ← getitem (items buffer) context_word;
       labels ← store2 labels (i * num_skips + j) 0 context;
       mret (batch, labels)) (batch, labels))
    as ([batch' labels'] & Hrun & HI).
  - unfold I. cbn. split_and!; try done. intros j' w Hj'. lia.
  - intros j [jz w] [b l] Hjw (Hb & Hl & Hr & Hsame & Hdone).
    apply lookup_enumerate in Hjw as [-> Hw]. cbn in Hb, Hl, Hr, Hsame, Hdone.
    pose proof (lookup_lt_Some _ _ _ Hw) as Hj.
    destruct (Hws w) as [Hw0 [c Hc]]; [by eapply list_elem_of_lookup_2|].
    assert (is_int32 c) as Hc32.
    { by eapply (Forall_lookup_1 is_int32 (items buffer)). }
    cbv beta iota.
    rewrite (getitem_nonneg _ skip_window), Htarget by done. cbn.
    rewrite store_nonneg by (done || lia).
    rewrite (proj2 (Z.ltb_lt _ (len b))) by (unfold len; lia). cbn.
    rewrite (getitem_nonneg _ w), Hc by done. cbn.
    replace (Z.to_nat (i * num_skips + Z.of_nat j)) with (base + j)%nat
      by lia.
    assert (is_Some (l !! (base + j)%nat)) as [row Hrow].
    { apply lookup_lt_is_Some. lia. }
    rewrite (store2_column l _ row); [|lia| | |done].
    2: { by replace (Z.to_nat (i * num_skips + Z.of_nat j)) with (base + j)%nat
           by lia. }
    2: { by eapply Forall_lookup_1 in Hr. }
    replace (Z.to_nat (i * num_skips + Z.of_nat j)) with (base + j)%nat
      by lia.
    cbn. eexists. split; [reflexivity|]. unfold I. cbn.
    rewrite !length_insert. split_and!; try done.
    + apply Forall_insert; done.
    + intros k Hk. rewrite !list_lookup_insert_ne by lia. apply Hsame. lia.
    + intros j' w' Hj' Hw'. destruct (decide (j' = j)) as [->|Hne].
      * split; [apply list_lookup_insert_eq; lia|].
        exists c. split; [congruence|]. apply list_lookup_insert_eq; lia.
      * rewrite !list_lookup_insert_ne by lia. apply Hdone; [lia|done].
  - exists batch', labels'. destruct HI as (Hb & Hl & Hr & Hsame & Hdone).
    rewrite length_enumerate in Hsame, Hdone. cbn in *.
    split_and!; try done.
    intros j w Hw. apply Hdone; [|done]. by eapply lookup_lt_Some.
Qed.

(** The pairs of a group raise [IndexError] when the buffer is short, or
    [OverflowError] when a token does not convert. *)
Lemma emit_pairs_inl num_skips skip_window i buffer ws out e :
  emit_pairs num_skips skip_window i buffer ws out = inl e →
  e = IndexError ∨ e = OverflowError.
Proof.
  unfold emit_pairs.
  apply (for_each_inl (λ e, e = IndexError ∨ e = OverflowError)).
  intros [j w] [b l] e'.
  intros [He|(? & _ & [He|(? & _ & [He|(? & _ & [He|(? & _ & He)]%bind_inl)
    ]%bind_inl)]%bind_inl)]%bind_inl;
    eauto using getitem_inl, store_inl, store2_inl. done.
Qed.

End Sampling.

(** ** [generate_batch]: valid arguments *)

Lemma bind_inr_l {A B} (a : A) (f : A → result B) : inr a ≫= f = f a.
Proof. reflexivity. Qed.

(** Runs the steps of a computation whose outcome is known. *)
Ltac result_simpl :=
  cbv beta iota zeta delta [mbind mret result_bind result_ret raise assert].

Section Chain.
Context `{RandomSource R} `{Platform}.

(** [generate_batch] as a chain of its checks around its loop. *)
Lemma generate_batch_eq batch_size num_skips skip_window data (rng : R) :
  generate_batch batch_size num_skips skip_window data rng =
    if num_skips =? 0 then inl ZeroDivisionError
    else if negb (batch_size mod num_skips =? 0) then inl AssertionError
    else if negb (num_skips <=? 2 * skip_window) then inl AssertionError
    else if (batch_size <? 0) || (2 ^ 61 <=? batch_size) then inl ValueError
    else if array_limit <? batch_size then inl MemoryError
    else if (2 * skip_window + 1 <? ssize_t_min)
            || (ssize_t_max <? 2 * skip_window + 1) then inl OverflowError
    else if 2 * skip_window + 1 <? 0 then inl ValueError
    else
      match for_each (range (batch_size / num_skips))
              (group num_skips skip_window (2 * skip_window + 1) data)
              (initial_state batch_size skip_window data rng) with
      | inl e => inl e
      | inr (batch, labels, _, _, rng') =>
          if len data =? 0 then inl ZeroDivisionError
          else inr (batch, labels, rng')
      end.
Proof.
  unfold generate_batch, mod_, floordiv, initial_state.
  rewrite ndarray1_eq, ndarray2_eq. unfold deque_new.
  destruct (num_skips =? 0); [done|]. result_simpl.
  destruct (batch_size mod num_skips =? 0); [|done]. result_simpl.
  destruct (num_skips <=? 2 * skip_window); [|done]. result_simpl.
  destruct ((batch_size <? 0) || (2 ^ 61 <=? batch_size)); [done|].
  destruct (array_limit <? batch_size); [done|]. result_simpl.
  destruct ((2 * skip_window + 1 <? ssize_t_min)
            || (ssize_t_max <? 2 * skip_window + 1)); [done|].
  destruct (2 * skip_window + 1 <? 0); [done|]. result_simpl.
  assert ((if 0 + (2 * skip_window + 1) >? len data then 0 else 0) = 0) as ->
    by (by case_match).
  rewrite !Z.add_0_l.
  destruct (for_each _ _ _) as [e|[[[[batch labels] buffer] data_index] rng']];
    [done|].
  by destruct (len data =? 0).
Qed.

(** The checks that arguments in the ranges of the platform pass. *)
Lemma generate_batch_in_range batch_size num_skips skip_window data (rng : R) :
  num_skips ≠ 0 → batch_size mod num_skips = 0 →
  num_skips ≤ 2 * skip_window →
  0 ≤ batch_size ≤ array_limit → 0 ≤ 2 * skip_window + 1 ≤ ssize_t_max →
  generate_batch batch_size num_skips skip_window data rng =
    match for_each (range (batch_size / num_skips))
            (group num_skips skip_window (2 * skip_window + 1) data)
            (initial_state batch_size skip_window data rng) with
    | inl e => inl e
    | inr (batch, labels, _, _, rng') =>
        if len data =? 0 then inl ZeroDivisionError
        else inr (batch, labels, rng')
    end.
Proof.
  intros Hns Hdiv Hsk Hbs Hspan. rewrite generate_batch_eq.
  pose proof array_limit_range. unfold ssize_t_min, ssize_t_max in *.
  rewrite (proj2 (Z.eqb_neq num_skips 0)) by done.
  rewrite Hdiv. change (0 =? 0) with true.
  rewrite (proj2 (Z.leb_le _ _) Hsk). cbn [negb].
  rewrite (proj2 (Z.ltb_ge batch_size 0)) by lia.
  rewrite (proj2 (Z.leb_gt (2 ^ 61) batch_size)) by lia.
  rewrite (proj2 (Z.ltb_ge array_limit batch_size)) by lia.
  rewrite (proj2 (Z.ltb_ge (2 * skip_window + 1) (- 2 ^ 63))) by lia.
  rewrite (proj2 (Z.ltb_ge (2 ^ 63 - 1) (2 * skip_window + 1))) by lia.
  rewrite (proj2 (Z.ltb_ge (2 * skip_window + 1) 0)) by lia.
  done.
Qed.
End Chain.

(** A window of tokens that [int32] represents. *)
Lemma holds_window_int32 data span s q :
  Forall is_int32 data → holds_window data span s q →
  Forall is_int32 (items q).
Proof.
  intros Htok (_ & Hlen & Hitems). apply Forall_lookup_2. intros j x Hx.
  pose proof (lookup_lt_Some _ _ _ Hx) as Hj.
  rewrite Hitems in Hx by lia.
  by eapply (Forall_lookup_1 is_int32 data).
Qed.

Section ValidArguments.
Context `{RandomSource R} `{Platform}.
Variables (batch_size num_skips skip_window : Z) (data : list Z).
Hypothesis Hbs : 0 ≤ batch_size.
Hypothesis Hns : 0 < num_skips.
Hypothesis Hdiv : batch_size mod num_skips = 0.
Hypothesis Hsk : num_skips ≤ 2 * skip_window.
Hypothesis Hlen : 2 * skip_window + 1 ≤ len data.
Hypothesis Htok : Forall is_int32 data.
Hypothesis Harr : batch_size ≤ array_limit.
Hypothesis Hlist : 2 * skip_window ≤ list_limit.

Lemma groups_fit i :
  Z.of_nat i < batch_size / num_skips →
  (Z.of_nat i + 1) * num_skips ≤ batch_size.
Proof.
  intros Hi. pose proof (Z.div_mod batch_size num_skips ltac:(lia)) as Hdm.
  rewrite Hdiv, Z.add_0_r in Hdm.
  assert ((Z.of_nat i + 1) * num_skips ≤ batch_size / num_skips * num_skips)
    by (apply Z.mul_le_mono_nonneg_r; lia).
  lia.
Qed.

Lemma group_ok i s :
  Z.of_nat i < batch_size / num_skips →
  groups_inv batch_size num_skips skip_window data i s →
  ∃ s', group num_skips skip_window (2 * skip_window + 1) data (Z.of_nat i) s
          = inr s' ∧
        groups_inv batch_size num_skips skip_window data (S i) s'.
Proof.
  intros Hi Hinv. destruct s as [[[[batch labels] buffer] data_index] rng].
  destruct Hinv as (Hb & Hl & Hr & Hwin & -> & Hpairs). cbn [fst snd] in *.
  pose proof (groups_fit i Hi) as Hfit.
  pose proof (window_start_bounds skip_window data (Z.of_nat i) Hlen) as [Hs0 Hs1].
  pose proof (window_start_succ skip_window data (Z.of_nat i) Hlen ltac:(lia))
    as Hnext.
  remember (window_start skip_window data (Z.of_nat i)) as st eqn:Hst.
  pose proof (holds_window_int32 _ _ _ _ Htok Hwin) as Hbuf32.
  destruct Hwin as (Hmax & Hitems_len & Hitems).
  unfold group.
  rewrite new_list_inr by (rewrite context_words_length; lia).
  rewrite bind_inr_l.
  rewrite random_sample_eq by (rewrite context_words_length; lia).
  destruct (draw rng _ (Z.to_nat num_skips)) as [ws rng'] eqn:Hdraw.
  rewrite bind_inr_l. cbv beta iota.
  assert (length ws = Z.to_nat num_skips) as Hws_len.
  { pose proof (draw_length rng
      (filter (λ w, w ≠ skip_window) (range (2 * skip_window + 1)))
      (Z.to_nat num_skips)) as Hd.
    rewrite Hdraw in Hd. apply Hd.
    pose proof (context_words_length skip_window ltac:(lia)) as Hc.
    unfold len in Hc. lia. }
  assert (∀ w, w ∈ ws → 0 ≤ w < 2 * skip_window + 1 ∧ w ≠ skip_window) as Hws.
  { intros w Hw. apply (elem_of_context_words skip_window).
    pose proof (draw_subseteq rng
      (filter (λ w, w ≠ skip_window) (range (2 * skip_window + 1)))
      (Z.to_nat num_skips)) as Hd.
    rewrite Hdraw in Hd. by apply Hd. }
  assert (is_Some (data !! Z.to_nat (st + skip_window))) as [target Htarget].
  { apply lookup_lt_is_Some. unfold len in *. lia. }
  destruct (emit_pairs_ok num_skips skip_window (Z.of_nat i) buffer ws
              batch labels target)
    as (batch' & labels' & -> & Hb' & Hl' & Hr' & Hsame & Hnew);
    [lia|lia|done| | |lia|lia|done|].
  { rewrite Hitems by lia. rewrite <-Htarget. f_equal. lia. }
  { intros w Hw. apply Hws in Hw. split; [lia|].
    apply lookup_lt_is_Some. lia. }
  rewrite bind_inr_l.
  destruct (advance_window_ok data (Z.to_nat (2 * skip_window + 1))
              (Z.to_nat st) buffer)
    as (buffer' & Hadv & Hwin'); [lia|unfold len in *; lia|done|].
  rewrite !Z2Nat.id in Hadv, Hwin' by lia. rewrite Hadv, bind_inr_l.
  cbv beta iota. eexists. split; [reflexivity|].
  unfold groups_inv. cbn [fst snd].
  replace (Z.of_nat (S i)) with (Z.of_nat i + 1) by lia. rewrite Hnext.
  split_and!; [lia|lia|done| |done|].
  - destruct (st + (2 * skip_window + 1) =? len data); [done|].
    by replace (Z.to_nat (st + 1)) with (S (Z.to_nat st)) by lia.
  - intros k Hk.
    destruct (decide (k < Z.to_nat (Z.of_nat i * num_skips))%nat) as [Hold|Hcur].
    + destruct (Hpairs k) as (t & c & Ht & Hc & Hpair); [lia|].
      destruct (Hsame k) as [Hbk Hlk]; [lia|].
      exists t, c. cbn [fst snd] in *. by rewrite Hbk, Hlk.
    + assert (is_Some (ws !! (k - Z.to_nat (Z.of_nat i * num_skips))%nat))
        as [w Hw] by (apply lookup_lt_is_Some; lia).
      destruct (Hnew _ w Hw) as (Ht & c & Hc & Hlc).
      replace (Z.to_nat (Z.of_nat i * num_skips) +
               (k - Z.to_nat (Z.of_nat i * num_skips)))%nat with k in Ht, Hlc by lia.
      apply list_elem_of_lookup_2, Hws in Hw.
      assert (Z.of_nat k / num_skips = Z.of_nat i) as Hgroup.
      { symmetry.
        apply (Z.div_unique_pos _ _ _ (Z.of_nat k - Z.of_nat i * num_skips)); lia. }
      exists target, c. cbn [fst snd]. split; [done|]. split; [done|].
      rewrite Hgroup, <-Hst. unfold skipgram_pair.
      split; [lia|]. split; [lia|]. split; [done|].
      exists w. split; [lia|]. split; [lia|]. split; [lia|].
      rewrite <-Hc, Hitems by lia. f_equal. lia.
Qed.

(** With valid arguments in the ranges of the platform the call returns,
    every cell is written, and the pair in cell [k] comes from the window
    of group [k / num_skips]. *)
Lemma generate_batch_valid (rng : R) :
  ∃ batch labels rng',
    generate_batch batch_size num_skips skip_window data rng =
      inr (batch, labels, rng') ∧
    len batch = batch_size ∧ len labels = batch_size ∧
    ∀ k, Z.of_nat k < batch_size →
      pair_at num_skips skip_window data k (batch, labels).
Proof.
  pose proof list_limit_range as Hll.
  rewrite generate_batch_in_range;
    [|lia|done|done|lia|unfold ssize_t_max; lia].
  destruct (for_each_inv (groups_inv batch_size num_skips skip_window data)
    (range (batch_size / num_skips))
    (group num_skips skip_window (2 * skip_window + 1) data)
    (initial_state batch_size skip_window data rng))
    as ([[[[batch labels] buffer] data_index] rng'] & -> & Hinv).
  - unfold groups_inv, initial_state. cbn [fst snd]. rewrite !length_replicate.
    change (Z.of_nat 0) with 0. rewrite window_start_0.
    split_and!; [done|done| | |done|lia].
    + by apply Forall_replicate.
    + pose proof (initial_window data (Z.to_nat (2 * skip_window + 1))) as Hw.
      rewrite Z.add_0_l, Z2Nat.id in Hw by lia. apply Hw. unfold len in Hlen. lia.
  - intros i x s Hx Hs. apply lookup_seqZ in Hx as [-> Hx].
    rewrite Z.add_0_l. by apply group_ok.
  - rewrite (proj2 (Z.eqb_neq (len data) 0)) by lia.
    destruct Hinv as (Hb & Hl & _ & _ & _ & Hpairs). cbn [fst snd] in *.
    exists batch, labels, rng'. unfold len.
    split_and!; [done|lia|lia|].
    intros k Hk. apply Hpairs.
    unfold range. rewrite length_seqZ.
    pose proof (Z.div_mod batch_size num_skips ltac:(lia)) as Hdm.
    rewrite Hdiv, Z.add_0_r in Hdm.
    assert (0 ≤ batch_size / num_skips) by (apply Z.div_pos; lia).
    rewrite Z2Nat.id by lia. lia.
Qed.
End ValidArguments.

(** ** [generate_batch]: the checks before and after the loop *)

Section Checks.
Context `{RandomSource R} `{Platform}.

Lemma advance_window_inl span data buffer data_index e :
  advance_window span data buffer data_index = inl e → e = IndexError.
Proof.
  unfold advance_window. case_match; [done|].
  intros [He|(? & _ & He)]%bind_inl; [by eapply getitem_inl|done].
Qed.

(** What a group can raise; no assertion fails and nothing is divided
    inside the loop. *)
Lemma group_inl num_skips skip_window span data i (s : arrays * deque * Z * R) e :
  group num_skips skip_window span data i s = inl e →
  e = MemoryError ∨ e = ValueError ∨ e = IndexError ∨ e = OverflowError.
Proof.
  destruct s as [[[out buffer] data_index] rng]. unfold group.
  intros [He|(cw & _ & [He|([ws rng'] & _ &
    [He|(out' & _ & [He|([b d] & _ & He)]%bind_inl)]%bind_inl)]%bind_inl)
    ]%bind_inl.
  - left. by eapply new_list_inl.
  - right. left. by eapply random_sample_inl.
  - apply emit_pairs_inl in He as [He|He]; tauto.
  - right. right. left. by eapply advance_window_inl.
  - done.
Qed.

(** A group that returns found the memory for its list of positions. *)
Lemma group_inr_list num_skips skip_window data i (s s' : arrays * deque * Z * R) :
  0 ≤ skip_window →
  group num_skips skip_window (2 * skip_window + 1) data i s = inr s' →
  2 * skip_window ≤ list_limit.
Proof.
  intros Hsw. destruct s as [[[out buffer] data_index] rng]. unfold group.
  intros (cw & [Hcw _]%new_list_success & _)%bind_inr.
  by rewrite context_words_length in Hcw.
Qed.





End Checks.

(** ** [generate_batch]: the claims *)

Lemma floordiv_neg_divisor a b : 0 ≤ a → b < 0 → a / b ≤ 0.
Proof.
  intros Ha Hb. pose proof (Z.div_mod a b ltac:(lia)) as Hdm.
  pose proof (Z.mod_neg_bound a b Hb) as Hr. nia.
Qed.

Lemma groups_positive batch_size num_skips :
  0 ≤ batch_size → num_skips ≠ 0 → batch_size mod num_skips = 0 →
  0 < batch_size / num_skips → 0 < num_skips ∧ num_skips ≤ batch_size.
Proof.
  intros Hbs Hns Hdiv Hgroups.
  assert (0 < num_skips) as Hpos.
  { destruct (decide (0 < num_skips)); [done|].
    pose proof (floordiv_neg_divisor batch_size num_skips Hbs ltac:(lia)). lia. }
  split; [done|].
  pose proof (Z.div_mod batch_size num_skips Hns) as Hdm.
  rewrite Hdiv, Z.add_0_r in Hdm. nia.
Qed.

Section Claims.
Context `{RandomSource R} `{Platform}.

(** A call that returns has passed every check. *)
Lemma generate_batch_inr
    batch_size num_skips skip_window data (rng rng' : R) batch labels :
  generate_batch batch_size num_skips skip_window data rng =
    inr (batch, labels, rng') →
  num_skips ≠ 0 ∧ batch_size mod num_skips = 0 ∧
  num_skips ≤ 2 * skip_window ∧ 0 ≤ batch_size ≤ array_limit ∧
  0 ≤ 2 * skip_window + 1 ≤ ssize_t_max ∧
  ∃ buffer data_index,
    for_each (range (batch_size / num_skips))
      (group num_skips skip_window (2 * skip_window + 1) data)
      (initial_state batch_size skip_window data rng) =
    inr (batch, labels, buffer, data_index, rng').
Proof.
  rewrite generate_batch_eq.
  destruct (Z.eqb_spec num_skips 0); [done|].
  destruct (Z.eqb_spec (batch_size mod num_skips) 0); [|done].
  destruct (Z.leb_spec num_skips (2 * skip_window)); [|done].
  destruct (Z.ltb_spec batch_size 0); [done|].
  destruct (Z.leb_spec (2 ^ 61) batch_size); [done|].
  destruct (Z.ltb_spec array_limit batch_size); [done|].
  destruct (Z.ltb_spec (2 * skip_window + 1) ssize_t_min); [done|].
  destruct (Z.ltb_spec ssize_t_max (2 * skip_window + 1)); [done|].
  destruct (Z.ltb_spec (2 * skip_window + 1) 0); [done|]. cbn [negb orb].
  destruct (for_each _ _ _) as [err|[[[[b l] buffer] data_index] r]]; [done|].
  destruct (len data =? 0); [done|]. intros [= <- <- <-].
  split_and!; try done; try lia. eauto.
Qed.

(** Without a group to run, the arrays come back as they were created. *)
Lemma generate_batch_no_groups
    batch_size num_skips skip_window data (rng rng' : R) batch labels :
  batch_size / num_skips ≤ 0 →
  generate_batch batch_size num_skips skip_window data rng =
    inr (batch, labels, rng') →
  batch = replicate (Z.to_nat batch_size) None ∧
  labels = replicate (Z.to_nat batch_size) [None] ∧ rng' = rng.
Proof.
  intros Hgroups Hrun.
  destruct (generate_batch_inr _ _ _ _ _ _ _ _ Hrun)
    as (_ & _ & _ & _ & _ & buffer & data_index & Hloop).
  revert Hloop. unfold range. rewrite seqZ_nil by done. cbn [for_each].
  unfold initial_state. by intros [= <- <- _ _ <-].
Qed.

(** A call that returns with a group to run found the memory for the list
    of the window's context positions. *)
Lemma generate_batch_inr_list
    batch_size num_skips skip_window data (rng rng' : R) batch labels :
  generate_batch batch_size num_skips skip_window data rng =
    inr (batch, labels, rng') →
  0 < batch_size / num_skips →
  0 < num_skips ∧ 2 * skip_window ≤ list_limit.
Proof.
  intros Hrun Hgroups.
  destruct (generate_batch_inr _ _ _ _ _ _ _ _ Hrun)
    as (Hns & Hdiv & Hsk & Hbs & _ & buffer & data_index & Hloop).
  destruct (groups_positive _ _ (proj1 Hbs) Hns Hdiv Hgroups) as [Hpos _].
  split; [done|]. revert Hloop.
  unfold range. rewrite seqZ_cons by done. cbn [for_each].
  intros (s1 & Hfirst & _)%bind_inr.
  eapply group_inr_list; [|done]. lia.
Qed.

(** C1 (as amended): with valid arguments and tokens that [int32], the
    dtype of both arrays, represents, whatever the random source draws,
    every pair a call emits is a skip-gram pair of the window of its group:
    the batch cell holds the center token of that window, the label cell
    the token at another position of it, at most [skip_window] away. With a
    positive number of skips, and a batch and a window for which the
    platform finds the memory, the call returns and emits a pair in every
    cell. *)
Theorem generate_batch_pairs
    batch_size num_skips skip_window data (rng : R) :
  batch_size mod num_skips = 0 →
  num_skips ≤ 2 * skip_window →
  2 * skip_window + 1 ≤ len data →
  Forall is_int32 data →
  (∀ batch labels rng' k target context,
     generate_batch batch_size num_skips skip_window data rng =
       inr (batch, labels, rng') →
     batch !! k = Some (Some target) →
     labels !! k = Some [Some context] →
     skipgram_pair skip_window data
       (window_start skip_window data (Z.of_nat k / num_skips))
       target context) ∧
  (0 ≤ batch_size ≤ array_limit → 0 < num_skips →
   2 * skip_window ≤ list_limit →
   ∃ batch labels rng',
     generate_batch batch_size num_skips skip_window data rng =
       inr (batch, labels, rng') ∧
     len batch = batch_size ∧ len labels = batch_size ∧
     ∀ k, Z.of_nat k < batch_size →
       ∃ target context,
         batch !! k = Some (Some target) ∧ labels !! k = Some [Some context]).
Proof.
  intros Hdiv Hsk Hlen Htok. split.
  - intros batch labels rng' k target context Hrun Hb Hl.
    destruct (generate_batch_inr _ _ _ _ _ _ _ _ Hrun)
      as (Hns & _ & _ & [Hbs Harr] & _).
    destruct (decide (0 < batch_size / num_skips)) as [Hgroups|Hnone].
    + destruct (generate_batch_inr_list _ _ _ _ _ _ _ _ Hrun Hgroups)
        as [Hpos Hlist].
      destruct (generate_batch_valid batch_size num_skips skip_window data
                  Hbs Hpos Hdiv Hsk Hlen Htok Harr Hlist rng)
        as (batch' & labels' & rng'' & Hrun' & Hlb & _ & Hpairs).
      rewrite Hrun in Hrun'. injection Hrun' as <- <- <-.
      destruct (Hpairs k) as (t & c & Ht & Hc & Hpair).
      { apply lookup_lt_Some in Hb. unfold len in Hlb. lia. }
      cbn [fst snd] in Ht, Hc. congruence.
    + assert (batch_size / num_skips ≤ 0) as Hle by lia.
      destruct (generate_batch_no_groups _ _ _ _ _ _ _ _ Hle Hrun)
        as (-> & _ & _).
      by apply lookup_replicate in Hb as [[=] _].
  - intros [Hbs Harr] Hns Hlist.
    destruct (generate_batch_valid batch_size num_skips skip_window data
                Hbs Hns Hdiv Hsk Hlen Htok Harr Hlist rng)
      as (batch & labels & rng' & Hrun & Hlb & Hll & Hpairs).
    exists batch, labels, rng'. split_and!; [done..|].
    intros k Hk. destruct (Hpairs k Hk) as (t & c & Ht & Hc & _). eauto.
Qed.

(** C7 (as amended): for a non-zero [num_skips] the call fails on an
    assertion exactly when [batch_size % num_skips != 0] or
    [num_skips > 2 * skip_window]; with [num_skips = 0] evaluating the first
    assertion raises [ZeroDivisionError]. *)
Theorem generate_batch_assertions
    batch_size num_skips skip_window data (rng : R) :
  (num_skips ≠ 0 →
   generate_batch batch_size num_skips skip_window data rng = inl AssertionError
   ↔ batch_size mod num_skips ≠ 0 ∨ num_skips > 2 * skip_window) ∧
  (num_skips = 0 →
   generate_batch batch_size num_skips skip_window data rng =
     inl ZeroDivisionError).
Proof.
  rewrite generate_batch_eq. split.
  - intros Hns. rewrite (proj2 (Z.eqb_neq num_skips 0)) by done.
    destruct (Z.eqb_spec (batch_size mod num_skips) 0) as [Hdiv|Hdiv]; cbn [negb];
      [|split; [by left|done]].
    destruct (Z.leb_spec num_skips (2 * skip_window)) as [Hsk|Hsk]; cbn [negb];
      [|split; [right; lia|done]].
    split; [|lia]. intros Hfail. exfalso.
    destruct ((batch_size <? 0) || (2 ^ 61 <=? batch_size)); [done|].
    destruct (array_limit <? batch_size); [done|].
    destruct ((2 * skip_window + 1 <? ssize_t_min)
              || (ssize_t_max <? 2 * skip_window + 1)); [done|].
    destruct (2 * skip_window + 1 <? 0); [done|].
    destruct (for_each _ _ _) as [e|[[[[b l] buffer] data_index] r]] eqn:Hloop.
    + injection Hfail as ->.
      apply (for_each_inl (λ e, e = MemoryError ∨ e = ValueError ∨
                                e = IndexError ∨ e = OverflowError)) in Hloop
        as [?|[?|[?|?]]]; [done..|].
      intros i s e. apply group_inl.
    + by destruct (len data =? 0).
  - intros ->. done.
Qed.

End Claims.

(** ** [generate_batch]: two calls *)

Section TwoCalls.
Context `{RandomSource R} `{Platform}.

Local Abbreviation pair_body num_skips skip_window i buffer :=
  (λ '(j, context_word) '(batch, labels),
     target ← getitem (items buffer) skip_window;
     batch ← store batch (i * num_skips + j) target;
     context ← getitem (items buffer) context_word;
     labels ← store2 labels (i * num_skips + j) 0 context;
     mret (batch, labels) : result arrays).

(** The batch cell written for a sampled position does not depend on the
    position. *)
Lemma pair_body_batch num_skips skip_window i buffer j w1 w2
    (b b1 b2 : list cell) (l1 l2 l1' l2' : list (list cell)) :
  pair_body num_skips skip_window i buffer (j, w1) (b, l1) = inr (b1, l1') →
  pair_body num_skips skip_window i buffer (j, w2) (b, l2) = inr (b2, l2') →
  b1 = b2.
Proof.
  cbv beta iota.
  intros (t1 & Ht1 & (x1 & Hx1 & (c1 & _ & (y1 & _ & [= <- _])%bind_inr
    )%bind_inr)%bind_inr)%bind_inr.
  intros (t2 & Ht2 & (x2 & Hx2 & (c2 & _ & (y2 & _ & [= <- _])%bind_inr
    )%bind_inr)%bind_inr)%bind_inr.
  congruence.
Qed.

Lemma enumerate_from_cons {A} j0 (w : A) ws :
  zip (seqZ j0 (Z.of_nat (length (w :: ws)))) (w :: ws) =
    (j0, w) :: zip (seqZ (Z.succ j0) (Z.of_nat (length ws))) ws.
Proof.
  cbn [length]. rewrite seqZ_cons by lia.
  by rewrite Nat2Z.inj_succ, Z.pred_succ.
Qed.

Lemma emit_pairs_batch_from num_skips skip_window i buffer j0 (ws1 ws2 : list Z)
    (b b1 b2 : list cell) (l1 l2 l1' l2' : list (list cell)) :
  length ws1 = length ws2 →
  for_each (zip (seqZ j0 (Z.of_nat (length ws1))) ws1)
    (pair_body num_skips skip_window i buffer) (b, l1) = inr (b1, l1') →
  for_each (zip (seqZ j0 (Z.of_nat (length ws2))) ws2)
    (pair_body num_skips skip_window i buffer) (b, l2) = inr (b2, l2') →
  b1 = b2.
Proof.
  revert ws2 b l1 l2 j0.
  induction ws1 as [|w1 ws1 IH]; intros [|w2 ws2] b l1 l2 j0 Hlen; try done.
  - rewrite seqZ_nil by done. cbn. by intros [= <- _] [= <- _].
  - rewrite !enumerate_from_cons. cbn [for_each].
    intros ([bx lx] & Hx & Hrest1)%bind_inr ([by' ly] & Hy & Hrest2)%bind_inr.
    pose proof (pair_body_batch _ _ _ _ _ _ _ _ _ _ _ _ _ _ Hx Hy) as <-.
    eapply IH; [|exact Hrest1|exact Hrest2]. by injection Hlen.
Qed.

Lemma emit_pairs_batch num_skips skip_window i buffer (ws1 ws2 : list Z)
    (b b1 b2 : list cell) (l1 l2 l1' l2' : list (list cell)) :
  length ws1 = length ws2 →
  emit_pairs num_skips skip_window i buffer ws1 (b, l1) = inr (b1, l1') →
  emit_pairs num_skips skip_window i buffer ws2 (b, l2) = inr (b2, l2') →
  b1 = b2.
Proof. apply emit_pairs_batch_from. Qed.

(** Two runs of the loop body from the same arrays of targets and the same
    window end with the same array of targets and the same window,
    whatever the states of the random source. *)
Lemma group_batch num_skips skip_window span data i
    (b b1 b2 : list cell) (l1 l2 l1' l2' : list (list cell))
    buffer buffer1 buffer2 (data_index d1 d2 : Z) (r1 r2 r1' r2' : R) :
  group num_skips skip_window span data i (b, l1, buffer, data_index, r1) =
    inr (b1, l1', buffer1, d1, r1') →
  group num_skips skip_window span data i (b, l2, buffer, data_index, r2) =
    inr (b2, l2', buffer2, d2, r2') →
  b1 = b2 ∧ buffer1 = buffer2 ∧ d1 = d2.
Proof.
  unfold group.
  intros (cw1 & [_ ->]%new_list_success & ([ws1 s1] & Hs1 & ([bx lx] & He1 &
    ([q1 x1] & Ha1 & [= <- <- <- <- <-])%bind_inr)%bind_inr)%bind_inr)%bind_inr.
  intros (cw2 & [_ ->]%new_list_success & ([ws2 s2] & Hs2 & ([by' ly] & He2 &
    ([q2 x2] & Ha2 & [= <- <- <- <- <-])%bind_inr)%bind_inr)%bind_inr)%bind_inr.
  apply random_sample_inr in Hs1 as (_ & Hl1 & _).
  apply random_sample_inr in Hs2 as (_ & Hl2 & _).
  assert (bx = by') as <-.
  { eapply emit_pairs_batch; [|exact He1|exact He2]. congruence. }
  rewrite Ha1 in Ha2. by injection Ha2 as <- <-.
Qed.

Lemma groups_batch num_skips skip_window span data (xs : list Z)
    (b b1 b2 : list cell) (l1 l2 l1' l2' : list (list cell))
    buffer buffer1 buffer2 (data_index d1 d2 : Z) (r1 r2 r1' r2' : R) :
  for_each xs (group num_skips skip_window span data)
    (b, l1, buffer, data_index, r1) = inr (b1, l1', buffer1, d1, r1') →
  for_each xs (group num_skips skip_window span data)
    (b, l2, buffer, data_index, r2) = inr (b2, l2', buffer2, d2, r2') →
  b1 = b2.
Proof.
  revert b l1 l2 buffer data_index r1 r2.
  induction xs as [|x xs IH]; intros b l1 l2 buffer data_index r1 r2; cbn.
  - by intros [= <- _ _ _ _] [= <- _ _ _ _].
  - intros ([[[[bx lx] qx] dx] rx] & Hx & Hrest1)%bind_inr.
    intros ([[[[by' ly] qy] dy] ry] & Hy & Hrest2)%bind_inr.
    destruct (group_batch _ _ _ _ _ _ _ _ _ _ _ _ _ _ _ _ _ _ _ _ _ _ Hx Hy)
      as (<- & <- & <-).
    eapply IH; [exact Hrest1|exact Hrest2].
Qed.

(** Two calls on the same arguments return the same targets, from
    whatever states of the random source they start. *)
Lemma generate_batch_same_batch batch_size num_skips skip_window data
    (r1 r2 r1' r2' : R) batch1 labels1 batch2 labels2 :
  generate_batch batch_size num_skips skip_window data r1 =
    inr (batch1, labels1, r1') →
  generate_batch batch_size num_skips skip_window data r2 =
    inr (batch2, labels2, r2') →
  batch1 = batch2.
Proof.
  intros (_ & _ & _ & _ & _ & q1 & d1 & Hloop1)%generate_batch_inr.
  intros (_ & _ & _ & _ & _ & q2 & d2 & Hloop2)%generate_batch_inr.
  unfold initial_state in *. eapply groups_batch; [exact Hloop1|exact Hloop2].
Qed.

(** C4 (as amended): a second call on the same arguments, made in the state
    in which the first call left the random source, returns the same batch
    of targets as the first: each call starts again from the first window.
    The two results can differ in their labels only. *)
Theorem generate_batch_twice batch_size num_skips skip_window data
    (rng rng1 rng2 : R) batch1 labels1 batch2 labels2 :
  generate_batch batch_size num_skips skip_window data rng =
    inr (batch1, labels1, rng1) →
  generate_batch batch_size num_skips skip_window data rng1 =
    inr (batch2, labels2, rng2) →
  batch1 = batch2.
Proof.
  intros (_ & _ & _ & _ & _ & q1 & d1 & Hloop1)%generate_batch_inr.
  intros (_ & _ & _ & _ & _ & q2 & d2 & Hloop2)%generate_batch_inr.
  unfold initial_state in *. eapply groups_batch; [exact Hloop1|exact Hloop2].
Qed.
End TwoCalls.

(** ** [generate_batch] on concrete calls, with the rotating source *)

(** The tokens of a concrete sequence are tokens that [int32] represents. *)
Ltac int32_tokens :=
  repeat first
    [ apply Forall_nil_2 | apply Forall_cons_2; [unfold is_int32; lia|] ].

Lemma generate_batch_pairs_witness :
  (2 mod 2 = 0 ∧ 2 ≤ 2 * 1 ∧ 2 * 1 + 1 ≤ len [1; 2; 3; 4; 5] ∧
   Forall is_int32 [1; 2; 3; 4; 5] ∧
   0 ≤ 2 ≤ array_limit ∧ 0 < 2 ∧ 2 * 1 ≤ list_limit) ∧
  (∀ batch labels rng' k target context,
     generate_batch 2 2 1 [1; 2; 3; 4; 5] 0%nat = inr (batch, labels, rng') →
     batch !! k = Some (Some target) →
     labels !! k = Some [Some context] →
     skipgram_pair 1 [1; 2; 3; 4; 5]
       (window_start 1 [1; 2; 3; 4; 5] (Z.of_nat k / 2)) target context) ∧
  (∃ batch labels rng',
     generate_batch 2 2 1 [1; 2; 3; 4; 5] 0%nat = inr (batch, labels, rng') ∧
     len batch = 2 ∧ len labels = 2 ∧
     ∀ k, Z.of_nat k < 2 →
       ∃ target context,
         batch !! k = Some (Some target) ∧ labels !! k = Some [Some context]).
Proof.
  split.
  - split_and!;
      [reflexivity|lia|unfold len; cbn; lia|int32_tokens|lia|cbn; lia|lia|
       cbn; lia].
  - destruct (generate_batch_pairs 2 2 1 [1; 2; 3; 4; 5] 0%nat)
      as [Hpairs Hreturns];
      [reflexivity|lia|unfold len; cbn; lia|int32_tokens|].
    split; [exact Hpairs|].
    apply Hreturns; [cbn; lia|lia|cbn; lia].
Defined.

(** C1 as stated fails: the three conditions hold and the call returns,
    but on NumPy 1 the batch cells hold -2^31 where the center token of
    the window is 2^31, which [int32] does not represent. *)
Lemma generate_batch_token_wraps :
  (2 mod 2 = 0 ∧ 2 ≤ 2 * 1 ∧ 2 * 1 + 1 ≤ len [1; 2 ^ 31; 3]) ∧
  generate_batch (PF := numpy_1) 2 2 1 [1; 2 ^ 31; 3] 0%nat =
    inr ([Some (- 2 ^ 31); Some (- 2 ^ 31)], [[Some 1]; [Some 3]], 1%nat) ∧
  ¬ skipgram_pair 1 [1; 2 ^ 31; 3]
      (window_start 1 [1; 2 ^ 31; 3] (Z.of_nat 0 / 2)) (- 2 ^ 31) 1.
Proof.
  split; [split_and!; [reflexivity|lia|unfold len; cbn; lia]|].
  split; [reflexivity|].
  intros (_ & _ & Htarget & _). vm_compute in Htarget. discriminate Htarget.
Qed.

(** On NumPy 2 the same call stores nothing: the conversion fails. *)
Example generate_batch_token_refused :
  generate_batch (PF := numpy_2) 2 2 1 [1; 2 ^ 31; 3] 0%nat =
    inl OverflowError.
Proof. reflexivity. Qed.

(** The spec's own example: one group, window 1 2 3, target 2 twice, and
    the two context tokens 1 and 3. *)
Example generate_batch_one_group :
  generate_batch 2 2 1 [1; 2; 3; 4; 5] 0%nat =
    inr ([Some 2; Some 2], [[Some 1]; [Some 3]], 1%nat).
Proof. reflexivity. Qed.

(** C4 as stated fails: on constant data the two calls return the same
    targets and the same labels, whatever the random source draws. *)
Lemma generate_batch_twice_same_result :
  generate_batch 2 2 1 [7; 7; 7] 0%nat =
    inr ([Some 7; Some 7], [[Some 7]; [Some 7]], 1%nat) ∧
  generate_batch 2 2 1 [7; 7; 7] 1%nat =
    inr ([Some 7; Some 7], [[Some 7]; [Some 7]], 2%nat).
Proof. split; reflexivity. Qed.

Lemma generate_batch_twice_witness :
  generate_batch 3 1 1 [1; 2; 3; 4; 5] 0%nat =
    inr ([Some 2; Some 3; Some 4], [[Some 1]; [Some 4]; [Some 3]], 3%nat) ∧
  generate_batch 3 1 1 [1; 2; 3; 4; 5] 3%nat =
    inr ([Some 2; Some 3; Some 4], [[Some 3]; [Some 2]; [Some 5]], 6%nat) ∧
  [Some 2; Some 3; Some 4] = [Some 2; Some 3; Some 4].
Proof.
  split; [reflexivity|]. split; [reflexivity|].
  apply (generate_batch_twice 3 1 1 [1; 2; 3; 4; 5] 0%nat 3%nat 6%nat
           [Some 2; Some 3; Some 4] [[Some 1]; [Some 4]; [Some 3]]
           [Some 2; Some 3; Some 4] [[Some 3]; [Some 2]; [Some 5]]);
    reflexivity.
Defined.

Lemma generate_batch_assertions_witness :
  2 ≠ 0 ∧
  (generate_batch 3 2 1 [1; 2; 3] 0%nat = inl AssertionError
   ↔ 3 mod 2 ≠ 0 ∨ 2 > 2 * 1).
Proof.
  split; [lia|].
  apply (proj1 (generate_batch_assertions 3 2 1 [1; 2; 3] 0%nat)). lia.
Defined.

(** C7 as stated fails: 1 is no multiple of 0, and the data is as long as
    the window, yet the call raises [ZeroDivisionError], not an assertion
    failure. The same error stops the call with [batch_size = 0], where
    neither condition of the claim is met. *)
Lemma generate_batch_zero_skips :
  2 * 1 + 1 ≤ len [1; 2; 3] ∧
  generate_batch 1 0 1 [1; 2; 3] 0%nat = inl ZeroDivisionError ∧
  ¬ (generate_batch 1 0 1 [1; 2; 3] 0%nat = inl AssertionError
     ↔ 1 mod 0 ≠ 0 ∨ 0 > 2 * 1) ∧
  generate_batch 0 0 1 [1; 2; 3] 0%nat = inl ZeroDivisionError ∧
  ¬ (0 mod 0 ≠ 0 ∨ 0 > 2 * 1).
Proof.
  split; [unfold len; cbn; lia|]. split; [reflexivity|]. split.
  - intros [_ Hfail].
    assert (1 mod 0 ≠ 0 ∨ 0 > 2 * 1) as Hcond by (left; by compute).
    apply Hfail in Hcond. discriminate Hcond.
  - split; [reflexivity|]. intros [Hmod|Hgt]; [by apply Hmod|lia].
Qed.


(** The other ends of a call on data shorter than the window: a token that
    [int32] does not represent is refused by NumPy 2 before any index is
    out of range, a window too wide for a [Py_ssize_t] is refused by the
    deque, and a batch too large for [npy_intp] by the array. *)
Example generate_batch_short_data_overflow :
  generate_batch (PF := numpy_2) 1 1 1 [1; 2 ^ 31] 0%nat = inl OverflowError ∧
  generate_batch 1 1 1 [1; 2 ^ 64] 0%nat = inl OverflowError ∧
  generate_batch 1 1 (2 ^ 62) [1; 2] 0%nat = inl OverflowError ∧
  generate_batch (2 ^ 63) (-1) 1 [1] 0%nat = inl ValueError.
Proof. split_and!; reflexivity. Qed.



(** * Further properties of [build_dataset] *)

(** ** The encoded data *)

(** The loop of lines 35-39 encodes the tokens one by one and tallies the
    zeros. *)
Lemma encode_eq (dictionary : dict string Z) words :
  encode dictionary words =
    ((λ w, dict_get_default dictionary w 0) <$> words,
     len (filter (λ id, id = 0)
            ((λ w, dict_get_default dictionary w 0) <$> words))).
Proof.
  unfold encode.
  assert (∀ acc c,
    fold_left
      (λ '(data, unk_count) word,
         let index := dict_get_default dictionary word 0 in
         let unk_count := if index =? 0 then unk_count + 1 else unk_count in
         (data ++ [index], unk_count)) words (acc, c) =
    (acc ++ ((λ w, dict_get_default dictionary w 0) <$> words),
     c + len (filter (λ id, id = 0)
                ((λ w, dict_get_default dictionary w 0) <$> words)))) as Hgen.
  { induction words as [|w words IH]; intros acc c; cbn [fold_left fmap list_fmap].
    - rewrite app_nil_r. unfold len. cbn. f_equal. lia.
    - cbv zeta. rewrite IH, <-app_assoc. cbn [app]. f_equal.
      rewrite filter_cons. unfold len.
      destruct (Z.eqb_spec (dict_get_default dictionary w 0) 0) as [Hz|Hz];
        case_decide; try done; cbn [length]; lia. }
  rewrite Hgen. cbn [app]. f_equal.
Qed.

Lemma build_dataset_data_eq words n_words data count dictionary rev :
  build_dataset words n_words = inr (data, count, dictionary, rev) →
  data = (λ w, dict_get_default dictionary w 0) <$> words.
Proof. rewrite build_dataset_eq, encode_eq. by intros [= <- _ <- _]. Qed.

Lemma build_dataset_count_eq words n_words data count dictionary rev :
  build_dataset words n_words = inr (data, count, dictionary, rev) →
  count = (UNK, len (filter (λ id, id = 0) data))
            :: most_common (n_words - 1) (Counter words).
Proof. rewrite build_dataset_eq, encode_eq. by intros [= <- <- _ _]. Qed.

(** X1: the encoded data is aligned with the words: entry [i] is the ID of
    word [i] in the dictionary, or 0 when the dictionary has no such key. *)
Theorem build_dataset_data words n_words data count dictionary rev :
  build_dataset words n_words = inr (data, count, dictionary, rev) →
  length data = length words ∧
  ∀ i w, words !! i = Some w →
    data !! i = Some (dict_get_default dictionary w 0).
Proof.
  intros ->%build_dataset_data_eq. split; [apply length_fmap|].
  intros i w Hw. by rewrite list_lookup_fmap, Hw.
Qed.

Lemma build_dataset_data_witness :
  build_dataset ["a"; "b"; "a"; "c"; "a"; "b"] 3 =
    inr ([1; 2; 1; 0; 1; 2], [("UNK", 1); ("a", 3); ("b", 2)],
         [("UNK", 0); ("a", 1); ("b", 2)], [(0, "UNK"); (1, "a"); (2, "b")]) ∧
  length [1; 2; 1; 0; 1; 2] = length ["a"; "b"; "a"; "c"; "a"; "b"] ∧
  ∀ i w, ["a"; "b"; "a"; "c"; "a"; "b"] !! i = Some w →
    [1; 2; 1; 0; 1; 2] !! i =
      Some (dict_get_default [("UNK", 0); ("a", 1); ("b", 2)] w 0).
Proof.
  split; [reflexivity|].
  apply (build_dataset_data ["a"; "b"; "a"; "c"; "a"; "b"] 3 _
           [("UNK", 1); ("a", 3); ("b", 2)] _ [(0, "UNK"); (1, "a"); (2, "b")]).
  reflexivity.
Defined.

(** X2: the first entry of [count] is for "UNK", and the frequency stored
    there is the number of words encoded as 0. *)
Theorem build_dataset_unk_frequency words n_words data count dictionary rev :
  build_dataset words n_words = inr (data, count, dictionary, rev) →
  count !! 0%nat = Some (UNK, len (filter (λ id, id = 0) data)).
Proof. by intros ->%build_dataset_count_eq. Qed.

Lemma build_dataset_unk_frequency_witness :
  build_dataset ["a"; "b"; "a"; "c"; "a"; "b"] 3 =
    inr ([1; 2; 1; 0; 1; 2], [("UNK", 1); ("a", 3); ("b", 2)],
         [("UNK", 0); ("a", 1); ("b", 2)], [(0, "UNK"); (1, "a"); (2, "b")]) ∧
  [("UNK", 1); ("a", 3); ("b", 2)] !! 0%nat =
    Some (UNK, len (filter (λ id, id = 0) [1; 2; 1; 0; 1; 2])).
Proof.
  split; [reflexivity|].
  apply (build_dataset_unk_frequency ["a"; "b"; "a"; "c"; "a"; "b"] 3
           [1; 2; 1; 0; 1; 2] _ [("UNK", 0); ("a", 1); ("b", 2)]
           [(0, "UNK"); (1, "a"); (2, "b")]).
  reflexivity.
Defined.

(** ** The counter and the selected tokens *)

Lemma occurrences_cons w x words :
  occurrences w (x :: words) =
    (if decide (x = w) then 1 else 0) + occurrences w words.
Proof.
  unfold occurrences, len. rewrite filter_cons.
  case_decide; cbn [length]; lia.
Qed.

Lemma occurrences_nonneg w words : 0 ≤ occurrences w words.
Proof. unfold occurrences, len. lia. Qed.

Lemma occurrences_pos w words : w ∈ words → 1 ≤ occurrences w words.
Proof.
  induction 1 as [w words|w x words Hin IH]; rewrite occurrences_cons.
  - rewrite decide_True by done. pose proof (occurrences_nonneg w words). lia.
  - case_decide; lia.
Qed.

(** [Counter] counts: each step adds one to the count of its word. *)
Lemma Counter_get_from words (c : dict string Z) w :
  dict_get_default (fold_left count_step words c) w 0 =
    dict_get_default c w 0 + occurrences w words.
Proof.
  revert c. induction words as [|x words IH]; intros c; cbn [fold_left].
  - unfold occurrences, len. cbn. lia.
  - rewrite IH, occurrences_cons. cbv beta. unfold dict_get_default.
    rewrite dict_get_set. case_decide as Hx.
    + subst x. cbn. lia.
    + lia.
Qed.

Lemma Counter_NoDup words : NoDup (dict_keys (Counter words)).
Proof. by destruct (Counter_keys_from words []) as [Hnd _]; [apply NoDup_nil_2|]. Qed.

Lemma Counter_keys words w : w ∈ dict_keys (Counter words) ↔ w ∈ words.
Proof.
  destruct (Counter_keys_from words []) as [_ Hin]; [apply NoDup_nil_2|].
  unfold Counter. rewrite (Hin w). cbn. rewrite elem_of_nil. tauto.
Qed.

Lemma Counter_entry words w c :
  (w, c) ∈ Counter words → w ∈ words ∧ c = occurrences w words.
Proof.
  intros Hin. split.
  - apply Counter_keys. unfold dict_keys. apply list_elem_of_fmap. by exists (w, c).
  - pose proof (Counter_get_from words [] w) as Hget.
    fold (Counter words) in Hget.
    unfold dict_get_default in Hget at 1.
    rewrite (dict_get_elem_NoDup _ _ _ (Counter_NoDup words) Hin) in Hget.
    cbn in Hget. lia.
Qed.

Lemma most_common_subseteq n c : most_common n c ⊆ c.
Proof.
  unfold most_common. case_match; [apply list_subseteq_nil|].
  intros x Hx. apply subseteq_take in Hx.
  by rewrite (sorted_desc_Permutation c) in Hx.
Qed.

Lemma insert_desc_sorted x l :
  StronglySorted by_frequency l → StronglySorted by_frequency (insert_desc x l).
Proof.
  induction 1 as [|y l Hl IH Hy]; cbn.
  - repeat constructor.
  - destruct (Z.ltb_spec x.2 y.2) as [Hlt|Hge].
    + apply StronglySorted_cons. split; [|done].
      rewrite (insert_desc_Permutation x l). constructor; [|done].
      unfold by_frequency. lia.
    + apply StronglySorted_cons. split; [|by constructor].
      constructor; [unfold by_frequency; lia|].
      eapply Forall_impl; [exact Hy|]. unfold by_frequency. intros z. lia.
Qed.

Lemma sorted_desc_sorted items : StronglySorted by_frequency (sorted_desc items).
Proof.
  unfold sorted_desc. induction items as [|x items IH]; cbn; [constructor|].
  by apply insert_desc_sorted.
Qed.

Lemma most_common_sorted n c : StronglySorted by_frequency (most_common n c).
Proof.
  unfold most_common. case_match; [constructor|].
  apply (StronglySorted_app_1_l _ _ (drop (Z.to_nat n) (sorted_desc c))).
  rewrite take_drop. apply sorted_desc_sorted.
Qed.

(** An entry that [most_common] leaves out has no larger count than the
    entries it keeps. *)
Lemma most_common_best n c x y :
  x ∈ most_common n c → y ∈ c → y ∉ most_common n c → by_frequency x y.
Proof.
  unfold most_common. case_match; [by intros ?%elem_of_nil|].
  intros Hx Hy Hny.
  rewrite <-(sorted_desc_Permutation c),
    <-(take_drop (Z.to_nat n) (sorted_desc c)) in Hy.
  apply elem_of_app in Hy as [Hy|Hy]; [done|].
  eapply StronglySorted_app_1_elem_of; [|exact Hx|exact Hy].
  rewrite take_drop. apply sorted_desc_sorted.
Qed.

(** ** [count] *)

(** X3: for [n_words >= 1], [count] has [min n_words (distinct + 1)] entries,
    whatever the tokens are. *)
Theorem build_dataset_count_length words n_words data count dictionary rev :
  1 ≤ n_words →
  build_dataset words n_words = inr (data, count, dictionary, rev) →
  len count = Z.min n_words (distinct_token_count words + 1).
Proof.
  intros Hn Hrun. rewrite (build_dataset_count_eq _ _ _ _ _ _ Hrun).
  pose proof (most_common_length (n_words - 1) (Counter words)) as Hlen.
  rewrite Counter_length in Hlen. unfold len in *. cbn [length]. lia.
Qed.

Lemma build_dataset_count_length_witness :
  1 ≤ 2 ∧
  build_dataset ["UNK"] 2 =
    inr ([1], [("UNK", 0); ("UNK", 1)], [("UNK", 1)], [(1, "UNK")]) ∧
  len [("UNK", 0); ("UNK", 1)] = Z.min 2 (distinct_token_count ["UNK"] + 1).
Proof.
  split; [lia|]. split; [reflexivity|].
  apply (build_dataset_count_length ["UNK"] 2 [1] _
           [("UNK", 1)] [(1, "UNK")]); [lia|reflexivity].
Defined.

(** X4: every entry of [count] after the first names a token of [words]
    together with the number of its occurrences, and no token is listed
    twice. *)
Theorem build_dataset_count_entries words n_words data count dictionary rev :
  build_dataset words n_words = inr (data, count, dictionary, rev) →
  NoDup (drop 1 count).*1 ∧
  ∀ w c, (w, c) ∈ drop 1 count →
    w ∈ words ∧ c = occurrences w words ∧ 1 ≤ c.
Proof.
  intros Hrun. rewrite (build_dataset_count_eq _ _ _ _ _ _ Hrun).
  cbn [drop]. split.
  - apply most_common_NoDup, Counter_NoDup.
  - intros w c Hin. apply most_common_subseteq, Counter_entry in Hin as [Hw ->].
    split_and!; [done..|]. by apply occurrences_pos.
Qed.

Lemma build_dataset_count_entries_witness :
  build_dataset ["a"; "b"; "a"; "c"; "a"; "b"] 3 =
    inr ([1; 2; 1; 0; 1; 2], [("UNK", 1); ("a", 3); ("b", 2)],
         [("UNK", 0); ("a", 1); ("b", 2)], [(0, "UNK"); (1, "a"); (2, "b")]) ∧
  NoDup (drop 1 [("UNK", 1); ("a", 3); ("b", 2)]).*1 ∧
  ∀ w c, (w, c) ∈ drop 1 [("UNK", 1); ("a", 3); ("b", 2)] →
    w ∈ ["a"; "b"; "a"; "c"; "a"; "b"] ∧
    c = occurrences w ["a"; "b"; "a"; "c"; "a"; "b"] ∧ 1 ≤ c.
Proof.
  split; [reflexivity|].
  apply (build_dataset_count_entries ["a"; "b"; "a"; "c"; "a"; "b"] 3
           [1; 2; 1; 0; 1; 2] _ [("UNK", 0); ("a", 1); ("b", 2)]
           [(0, "UNK"); (1, "a"); (2, "b")]).
  reflexivity.
Defined.

(** X5: the selected tokens are listed by non-increasing frequency, and a token
    of [words] that is not selected occurs no more often than any selected
    one. *)
Theorem build_dataset_count_most_frequent
    words n_words data count dictionary rev :
  build_dataset words n_words = inr (data, count, dictionary, rev) →
  StronglySorted by_frequency (drop 1 count) ∧
  ∀ w t c, w ∈ words → w ∉ (drop 1 count).*1 → (t, c) ∈ drop 1 count →
    occurrences w words ≤ c.
Proof.
  intros Hrun. rewrite (build_dataset_count_eq _ _ _ _ _ _ Hrun).
  cbn [drop]. split; [apply most_common_sorted|].
  intros w t c Hw Hnot Hin.
  assert ((w, occurrences w words) ∈ Counter words) as Hentry.
  { apply Counter_keys in Hw. unfold dict_keys in Hw.
    apply list_elem_of_fmap in Hw as ([w' c'] & -> & Hwc). cbn.
    by destruct (Counter_entry _ _ _ Hwc) as [_ <-]. }
  apply (most_common_best _ _ (t, c) (w, occurrences w words) Hin Hentry).
  intros Hsel. apply Hnot. apply list_elem_of_fmap.
  by exists (w, occurrences w words).
Qed.

Lemma build_dataset_count_most_frequent_witness :
  build_dataset ["a"; "b"; "a"; "c"; "a"; "b"] 3 =
    inr ([1; 2; 1; 0; 1; 2], [("UNK", 1); ("a", 3); ("b", 2)],
         [("UNK", 0); ("a", 1); ("b", 2)], [(0, "UNK"); (1, "a"); (2, "b")]) ∧
  StronglySorted by_frequency (drop 1 [("UNK", 1); ("a", 3); ("b", 2)]) ∧
  ∀ w t c, w ∈ ["a"; "b"; "a"; "c"; "a"; "b"] →
    w ∉ (drop 1 [("UNK", 1); ("a", 3); ("b", 2)]).*1 →
    (t, c) ∈ drop 1 [("UNK", 1); ("a", 3); ("b", 2)] →
    occurrences w ["a"; "b"; "a"; "c"; "a"; "b"] ≤ c.
Proof.
  split; [reflexivity|].
  apply (build_dataset_count_most_frequent ["a"; "b"; "a"; "c"; "a"; "b"] 3
           [1; 2; 1; 0; 1; 2] _ [("UNK", 0); ("a", 1); ("b", 2)]
           [(0, "UNK"); (1, "a"); (2, "b")]).
  reflexivity.
Defined.

(** ** The IDs *)

(** The loop of lines 31-32 hands out IDs below the number of entries it
    has gone through. *)
Lemma assign_loop_range (count : list (string * Z)) (d : dict string Z) j :
  len d ≤ j → (∀ k v, (k, v) ∈ d → 0 ≤ v < j) →
  len (assign_loop count d) ≤ j + len count ∧
  ∀ k v, (k, v) ∈ assign_loop count d → 0 ≤ v < j + len count.
Proof.
  revert d j. induction count as [|[w c] count IH]; intros d j Hlen Hd;
    cbn [fold_left].
  - change (len (@nil (string * Z))) with 0. rewrite Z.add_0_r. done.
  - destruct (IH (dict_set d w (len d)) (j + 1)) as [Hlen' Hd'].
    + unfold len in *. rewrite dict_set_length. case_decide; lia.
    + intros k v [Hin|[_ ->]]%elem_of_dict_set.
      * apply Hd in Hin. lia.
      * unfold len in *. lia.
    + unfold len in *. cbn [length fst] in *. split; [lia|].
      intros k v Hin. apply Hd' in Hin. lia.
Qed.

(** X6: every ID, in the dictionary and in the encoded data, is a valid index
    into [count]; with [n_words >= 1] it is below [n_words]. *)
Theorem build_dataset_ids_in_range words n_words data count dictionary rev :
  build_dataset words n_words = inr (data, count, dictionary, rev) →
  (∀ w id, dict_get dictionary w = Some id → 0 ≤ id < len count) ∧
  (∀ id, id ∈ data → 0 ≤ id < len count) ∧
  (1 ≤ n_words → len count ≤ n_words).
Proof.
  intros Hrun. pose proof (build_dataset_count_eq _ _ _ _ _ _ Hrun) as ->.
  pose proof Hrun as Hrun'. rewrite build_dataset_eq, encode_eq in Hrun'.
  injection Hrun' as Hdata _ Hdict _. cbn [fst] in Hdata.
  assert (∀ w id, dict_get dictionary w = Some id →
            0 ≤ id < len ((UNK, len (filter (λ id, id = 0) data))
                            :: most_common (n_words - 1) (Counter words)))
    as Hrange.
  { intros w id Hget%dict_get_Some_elem. rewrite <-Hdict in Hget.
    destruct (assign_loop_range
                ((UNK, -1) :: most_common (n_words - 1) (Counter words)) [] 0)
      as [_ Hall]; [done|by intros k v ?%elem_of_nil|].
    apply Hall in Hget. unfold len in *. cbn [length] in *. lia. }
  split_and!; [done| |].
  - intros id Hid. rewrite <-Hdata in Hid.
    apply list_elem_of_fmap in Hid as (w & -> & _).
    unfold dict_get_default. rewrite Hdict.
    destruct (dict_get dictionary w) as [v|] eqn:Hget; cbn; [by eapply Hrange|].
    unfold len. cbn [length]. lia.
  - intros Hn.
    pose proof (most_common_length (n_words - 1) (Counter words)) as Hlen.
    unfold len in *. cbn [length]. lia.
Qed.

Lemma build_dataset_ids_in_range_witness :
  build_dataset ["UNK"; "UNK"; "a"] 3 =
    inr ([1; 1; 1], [("UNK", 0); ("UNK", 2); ("a", 1)],
         [("UNK", 1); ("a", 1)], [(1, "a")]) ∧
  (∀ w id, dict_get [("UNK", 1); ("a", 1)] w = Some id →
     0 ≤ id < len [("UNK", 0); ("UNK", 2); ("a", 1)]) ∧
  (∀ id, id ∈ [1; 1; 1] → 0 ≤ id < len [("UNK", 0); ("UNK", 2); ("a", 1)]) ∧
  (1 ≤ 3 → len [("UNK", 0); ("UNK", 2); ("a", 1)] ≤ 3).
Proof.
  split; [reflexivity|].
  apply (build_dataset_ids_in_range ["UNK"; "UNK"; "a"] 3 _ _ _ [(1, "a")]).
  reflexivity.
Defined.

(** ** Unknown tokens and the total of [count] *)

(** A key that the loop of lines 31-32 does not meet keeps its entry. *)
Lemma assign_loop_get_other (top : list (string * Z)) (d : dict string Z) w :
  w ∉ top.*1 → dict_get (assign_loop top d) w = dict_get d w.
Proof.
  revert d. induction top as [|[t c] top IH]; intros d Hw; cbn [fold_left];
    [done|].
  cbn in Hw. apply not_elem_of_cons in Hw as [Hne Hw].
  rewrite IH by done. cbn [fst]. rewrite dict_get_set. by rewrite decide_False.
Qed.

Lemma assign_loop_keys (top : list (string * Z)) (d : dict string Z) w :
  w ∈ top.*1 → w ∈ dict_keys (assign_loop top d).
Proof.
  intros ([t c] & -> & Hin)%list_elem_of_fmap.
  apply list_elem_of_split in Hin as (l1 & l2 & ->).
  rewrite fold_left_app. cbn [fold_left fst]. apply assign_keys_mono.
  rewrite dict_set_keys. case_decide; [done|].
  apply elem_of_app. right. by apply list_elem_of_singleton.
Qed.

(** A word is encoded as 0 exactly when it is not one of the selected
    tokens. *)
Lemma encoded_zero_iff (top : list (string * Z)) w :
  dict_get_default (assign_ids ((UNK, -1) :: top)) w 0 = 0 ↔ w ∉ top.*1.
Proof.
  unfold dict_get_default. split.
  - intros Hzero Hsel.
    destruct (dict_get_is_Some (assign_ids ((UNK, -1) :: top)) w) as [v Hv].
    { rewrite assign_ids_cons_UNK. by apply assign_loop_keys. }
    rewrite Hv in Hzero. cbn in Hzero. subst v.
    apply dict_get_Some_elem in Hv.
    assert (zero_only_UNK (assign_ids ((UNK, -1) :: top))) as (_ & _ & Hz).
    { rewrite assign_ids_cons_UNK.
      apply (assign_fold_ind zero_only_UNK); [apply zero_only_UNK_step|].
      split_and!; [done|apply NoDup_singleton|].
      intros k v Hin _. by apply list_elem_of_singleton in Hin as [= -> _]. }
    pose proof (Hz _ _ Hv eq_refl) as ->.
    destruct (assign_ids_UNK_again top Hsel) as (_ & _ & Hnz).
    by apply (Hnz _ _ Hv).
  - intros Hnot. rewrite assign_ids_cons_UNK, assign_loop_get_other by done.
    cbn. by case_decide.
Qed.

Lemma sum_occurrences_nil (ks : list string) :
  foldr (λ k acc, occurrences k [] + acc) 0 ks = 0.
Proof. induction ks as [|k ks IH]; cbn; [done|]. rewrite IH. done. Qed.

Lemma sum_occurrences_cons (ks : list string) x words :
  NoDup ks →
  foldr (λ k acc, occurrences k (x :: words) + acc) 0 ks =
    (if decide (x ∈ ks) then 1 else 0) +
    foldr (λ k acc, occurrences k words + acc) 0 ks.
Proof.
  induction 1 as [|k ks Hk Hnd IH]; cbn [foldr].
  - rewrite decide_False; [done|apply not_elem_of_nil].
  - rewrite IH, occurrences_cons.
    assert ((if decide (x ∈ k :: ks) then 1 else 0) =
            (if decide (x = k) then 1 else 0) +
            (if decide (x ∈ ks) then 1 else 0)) as ->; [|lia].
    rewrite (decide_ext _ _ _ _ (elem_of_cons ks x k)).
    destruct (decide (x = k)) as [->|Hne].
    + rewrite decide_True by (by left). by rewrite (decide_False (P := k ∈ ks)).
    + destruct (decide (x ∈ ks)) as [Hin|Hnin].
      * by rewrite decide_True by (by right).
      * rewrite decide_False; [done|]. by intros [?|?].
Qed.

(** The occurrences of the keys [ks] and the words outside [ks] make up
    the whole sequence. *)
Lemma sum_occurrences_split (ks : list string) (enc : string → Z) words :
  NoDup ks → (∀ w, enc w = 0 ↔ w ∉ ks) →
  foldr (λ k acc, occurrences k words + acc) 0 ks +
    len (filter (λ id, id = 0) (enc <$> words)) = len words.
Proof.
  intros Hnd Henc. induction words as [|x words IH].
  - rewrite sum_occurrences_nil. done.
  - rewrite sum_occurrences_cons by done. cbn [fmap list_fmap].
    rewrite filter_cons. unfold len in *. cbn [length].
    destruct (decide (x ∈ ks)) as [Hin|Hnin]; case_decide as Hz.
    + by apply Henc in Hz.
    + lia.
    + cbn [length]. lia.
    + by apply Henc in Hnin.
Qed.

Lemma total_frequency_occurrences (top : list (string * Z)) words :
  (∀ t c, (t, c) ∈ top → c = occurrences t words) →
  total_frequency top = foldr (λ k acc, occurrences k words + acc) 0 top.*1.
Proof.
  induction top as [|[t c] top IH]; intros Hall; cbn; [done|].
  rewrite <-IH by (intros t' c' Hin; apply Hall; by right).
  fold (total_frequency top). rewrite (Hall t c) by left. done.
Qed.

(** X7: the frequencies stored in [count] add up to the number of words: every
    word is counted once, under its own token or under "UNK". *)
Theorem build_dataset_total_frequency words n_words data count dictionary rev :
  build_dataset words n_words = inr (data, count, dictionary, rev) →
  total_frequency count = len words.
Proof.
  intros Hrun. pose proof (build_dataset_count_eq _ _ _ _ _ _ Hrun) as ->.
  rewrite build_dataset_eq, encode_eq in Hrun.
  injection Hrun as <- _ _ _. cbn [fst].
  set (top := most_common (n_words - 1) (Counter words)).
  cbn [total_frequency foldr snd]. fold (total_frequency top).
  rewrite (total_frequency_occurrences top words).
  - rewrite Z.add_comm.
    apply (sum_occurrences_split top.*1
             (λ w, dict_get_default (assign_ids ((UNK, -1) :: top)) w 0)).
    + apply most_common_NoDup, Counter_NoDup.
    + intros w. apply encoded_zero_iff.
  - intros t c Hin. by apply most_common_subseteq, Counter_entry in Hin as [_ ->].
Qed.

Lemma build_dataset_total_frequency_witness :
  build_dataset ["UNK"; "UNK"; "a"; "b"] 3 =
    inr ([1; 1; 1; 0], [("UNK", 1); ("UNK", 2); ("a", 1)],
         [("UNK", 1); ("a", 1)], [(1, "a")]) ∧
  total_frequency [("UNK", 1); ("UNK", 2); ("a", 1)] =
    len ["UNK"; "UNK"; "a"; "b"].
Proof.
  split; [reflexivity|].
  apply (build_dataset_total_frequency ["UNK"; "UNK"; "a"; "b"] 3
           [1; 1; 1; 0] _ [("UNK", 1); ("a", 1)] [(1, "a")]).
  reflexivity.
Defined.

(** ** Ranks and decoding, when "UNK" is not one of the selected tokens *)

(** X8: the ID of a token is its position in [count], and the reversed
    dictionary maps that position back to the token. *)
Theorem build_dataset_id_is_rank words n_words data count dictionary rev :
  UNK ∉ (most_common (n_words - 1) (Counter words)).*1 →
  build_dataset words n_words = inr (data, count, dictionary, rev) →
  ∀ j w c, count !! j = Some (w, c) →
    dict_get dictionary w = Some (Z.of_nat j) ∧
    dict_get rev (Z.of_nat j) = Some w.
Proof.
  intros Hunk Hrun j w c Hj.
  assert (dict_get dictionary w = Some (Z.of_nat j)) as Hget.
  { pose proof (build_dataset_dictionary _ _ _ _ _ _ Hunk Hrun) as Hd.
    cbv zeta in Hd.
    rewrite (build_dataset_count_eq _ _ _ _ _ _ Hrun) in Hj.
    set (top := most_common (n_words - 1) (Counter words)) in *.
    assert (NoDup top.*1) as Hnd by apply most_common_NoDup, Counter_NoDup.
    clearbody top. rewrite Hd. apply dict_get_elem_NoDup.
    - unfold dict_keys. cbn [fmap list_fmap fst].
      rewrite fst_zip by (rewrite length_fmap, length_seqZ; unfold len; lia).
      by apply NoDup_cons.
    - destruct j as [|j]; cbn in Hj.
      + injection Hj as <- _. left.
      + right. apply (elem_of_lookup_zip_with_2 _ _ _ w (Z.of_nat (S j)) (w, 0) j).
        * apply list_lookup_fmap_Some. by exists (w, c).
        * apply lookup_seqZ. apply lookup_lt_Some in Hj. unfold len. lia. }
  split; [done|]. by eapply build_dataset_round_trip.
Qed.

Lemma build_dataset_id_is_rank_witness :
  (UNK ∉ (most_common (3 - 1) (Counter ["a"; "b"; "a"; "c"; "a"; "b"])).*1) ∧
  build_dataset ["a"; "b"; "a"; "c"; "a"; "b"] 3 =
    inr ([1; 2; 1; 0; 1; 2], [("UNK", 1); ("a", 3); ("b", 2)],
         [("UNK", 0); ("a", 1); ("b", 2)], [(0, "UNK"); (1, "a"); (2, "b")]) ∧
  ∀ j w c, [("UNK", 1); ("a", 3); ("b", 2)] !! j = Some (w, c) →
    dict_get [("UNK", 0); ("a", 1); ("b", 2)] w = Some (Z.of_nat j) ∧
    dict_get [(0, "UNK"); (1, "a"); (2, "b")] (Z.of_nat j) = Some w.
Proof.
  assert (UNK ∉ (most_common (3 - 1)
                   (Counter ["a"; "b"; "a"; "c"; "a"; "b"])).*1) as Hunk.
  { vm_compute. intros Hin.
    repeat (apply elem_of_cons in Hin as [Hin|Hin]; [discriminate Hin|]).
    by apply elem_of_nil in Hin. }
  split; [exact Hunk|]. split; [reflexivity|].
  apply (build_dataset_id_is_rank ["a"; "b"; "a"; "c"; "a"; "b"] 3
           [1; 2; 1; 0; 1; 2]); [exact Hunk|reflexivity].
Defined.

(** X9: decoding the encoded data gives back each selected token, and "UNK"
    for the others. *)
Theorem build_dataset_decode words n_words data count dictionary rev :
  UNK ∉ (most_common (n_words - 1) (Counter words)).*1 →
  build_dataset words n_words = inr (data, count, dictionary, rev) →
  ∀ i w, words !! i = Some w →
    ∃ id, data !! i = Some id ∧
          dict_get rev id =
            Some (if decide (w ∈ (drop 1 count).*1) then w else UNK).
Proof.
  intros Hunk Hrun i w Hw.
  exists (dict_get_default dictionary w 0). split.
  { rewrite (build_dataset_data_eq _ _ _ _ _ _ Hrun).
    by rewrite list_lookup_fmap, Hw. }
  rewrite (build_dataset_count_eq _ _ _ _ _ _ Hrun). cbn [drop].
  rewrite drop_0.
  pose proof Hrun as Hrun'. rewrite build_dataset_eq in Hrun'.
  injection Hrun' as _ _ Hdict _.
  case_decide as Hsel.
  - destruct (dict_get_is_Some dictionary w) as [v Hv].
    { rewrite <-Hdict, assign_ids_cons_UNK. by apply assign_loop_keys. }
    unfold dict_get_default. rewrite Hv. cbn.
    by eapply build_dataset_round_trip.
  - pose proof (proj2 (encoded_zero_iff _ w) Hsel) as Hzero.
    rewrite Hdict in Hzero. rewrite Hzero.
    eapply build_dataset_round_trip; [done..|].
    rewrite <-Hdict, assign_ids_cons_UNK, assign_loop_get_other by done.
    cbn. by rewrite decide_True.
Qed.

Lemma build_dataset_decode_witness :
  (UNK ∉ (most_common (3 - 1) (Counter ["a"; "b"; "a"; "c"; "a"; "b"])).*1) ∧
  build_dataset ["a"; "b"; "a"; "c"; "a"; "b"] 3 =
    inr ([1; 2; 1; 0; 1; 2], [("UNK", 1); ("a", 3); ("b", 2)],
         [("UNK", 0); ("a", 1); ("b", 2)], [(0, "UNK"); (1, "a"); (2, "b")]) ∧
  ∀ i w, ["a"; "b"; "a"; "c"; "a"; "b"] !! i = Some w →
    ∃ id, [1; 2; 1; 0; 1; 2] !! i = Some id ∧
          dict_get [(0, "UNK"); (1, "a"); (2, "b")] id =
            Some (if decide (w ∈ (drop 1 [("UNK", 1); ("a", 3); ("b", 2)]).*1)
                  then w else UNK).
Proof.
  assert (UNK ∉ (most_common (3 - 1)
                   (Counter ["a"; "b"; "a"; "c"; "a"; "b"])).*1) as Hunk.
  { vm_compute. intros Hin.
    repeat (apply elem_of_cons in Hin as [Hin|Hin]; [discriminate Hin|]).
    by apply elem_of_nil in Hin. }
  split; [exact Hunk|]. split; [reflexivity|].
  apply (build_dataset_decode ["a"; "b"; "a"; "c"; "a"; "b"] 3
           [1; 2; 1; 0; 1; 2] [("UNK", 1); ("a", 3); ("b", 2)]
           [("UNK", 0); ("a", 1); ("b", 2)]); [exact Hunk|reflexivity].
Defined.

(** ** No words *)

(** X10: on an empty sequence of words, whatever [n_words] is, the vocabulary is
    "UNK" alone with frequency 0 and no data is produced. *)
Theorem build_dataset_no_words n_words :
  build_dataset [] n_words = inr ([], [(UNK, 0)], [(UNK, 0)], [(0, UNK)]).
Proof.
  rewrite build_dataset_eq.
  assert (most_common (n_words - 1) (Counter []) = []) as ->.
  { unfold most_common. case_match; [done|]. cbn. apply take_nil. }
  reflexivity.
Qed.

(** * Further properties of [generate_batch] *)

(** ** How a call ends *)

Section Outcome.
Context `{RandomSource R} `{Platform}.



End Outcome.

Section Errors.
Context `{RandomSource R} `{Platform}.




Lemma for_each_preserve {A S} (P : S → Prop) (xs : list A) body (s s' : S) :
  (∀ x s s', body x s = inr s' → P s → P s') →
  for_each xs body s = inr s' → P s → P s'.
Proof.
  intros Hbody. revert s. induction xs as [|x xs IH]; intros s; cbn.
  - by intros [= <-].
  - intros (s1 & Hx & Hrest)%bind_inr Hs. eauto.
Qed.

(** The stores of a group change no shape. *)
Lemma emit_pairs_shape num_skips skip_window i buffer ws (out out' : arrays) :
  emit_pairs num_skips skip_window i buffer ws out = inr out' →
  length out'.1 = length out.1 ∧ length out'.2 = length out.2 ∧
  (Forall (λ row, length row = 1%nat) out.2 →
   Forall (λ row, length row = 1%nat) out'.2).
Proof.
  unfold emit_pairs. intros Hrun.
  apply (for_each_preserve
    (λ o : arrays, length o.1 = length out.1 ∧ length o.2 = length out.2 ∧
      (Forall (λ row, length row = 1%nat) out.2 →
       Forall (λ row, length row = 1%nat) o.2))) in Hrun; [done| |done].
  intros [j w] [b l] [b' l'].
  intros (t & _ & (b1 & Hb1 & (c & _ & (l1 & Hl1 & [= <- <-])%bind_inr
    )%bind_inr)%bind_inr)%bind_inr (Hb & Hl & Hrows).
  cbn [fst snd] in *. apply store_length in Hb1.
  apply store2_shape in Hl1 as [Hl1 Hrows1].
  split_and!; [congruence|congruence|auto].
Qed.

Lemma group_shape num_skips skip_window span data i
    (s s' : arrays * deque * Z * R) :
  group num_skips skip_window span data i s = inr s' →
  length s'.1.1.1.1 = length s.1.1.1.1 ∧
  length s'.1.1.1.2 = length s.1.1.1.2 ∧
  (Forall (λ row, length row = 1%nat) s.1.1.1.2 →
   Forall (λ row, length row = 1%nat) s'.1.1.1.2).
Proof.
  destruct s as [[[out buffer] data_index] rng]. unfold group.
  intros (cw & _ & ([ws rng1] & _ & (out' & Hemit & ([q d] & _ & [= <-]
    )%bind_inr)%bind_inr)%bind_inr)%bind_inr.
  cbn [fst snd]. by apply emit_pairs_shape in Hemit.
Qed.

(** The cells have the width of their dtype: whatever the tokens, a
    written cell of an array that a call returns holds an [int32]. *)
Lemma store_cells a a' i z :
  store a i z = inr a' → Forall cell_int32 a → Forall cell_int32 a'.
Proof.
  unfold store. intros (idx & _ & (v & Hv & [= <-])%bind_inr)%bind_inr Ha.
  destruct (decide (idx < length a)%nat) as [Hlt|Hge].
  - apply Forall_insert; [done|]. intros v' [= <-]. by eapply to_int32_range.
  - by rewrite list_insert_ge by lia.
Qed.

Lemma store2_cells a a' i j z :
  store2 a i j z = inr a' →
  Forall (Forall cell_int32) a → Forall (Forall cell_int32) a'.
Proof.
  unfold store2.
  intros (row & Hrow & (row' & Hrow' & Ha')%bind_inr)%bind_inr Ha.
  unfold setitem in Ha'. apply bind_inr in Ha' as (idx & _ & [= <-]).
  destruct (decide (idx < length a)%nat) as [Hlt|Hge].
  - apply Forall_insert; [done|]. eapply store_cells; [done|].
    apply getitem_elem in Hrow.
    by apply (Forall_forall (Forall cell_int32) a).
  - by rewrite list_insert_ge by lia.
Qed.

Lemma generate_batch_cells
    batch_size num_skips skip_window data (rng rng' : R) batch labels :
  generate_batch batch_size num_skips skip_window data rng =
    inr (batch, labels, rng') →
  Forall cell_int32 batch ∧ Forall (Forall cell_int32) labels.
Proof.
  intros (_ & _ & _ & _ & _ & buffer & data_index & Hloop)%generate_batch_inr.
  apply (for_each_preserve
    (λ s : arrays * deque * Z * R,
       Forall cell_int32 s.1.1.1.1 ∧
       Forall (Forall cell_int32) s.1.1.1.2)) in Hloop; [done| |].
  - intros x [[[out q] d] r] s'. unfold group.
    intros (cw & _ & ([ws r1] & _ & (out' & Hemit & ([q' d'] & _ & [= <-]
      )%bind_inr)%bind_inr)%bind_inr)%bind_inr.
    cbn [fst snd]. revert Hemit. unfold emit_pairs.
    apply (for_each_preserve
      (λ o : arrays, Forall cell_int32 o.1 ∧ Forall (Forall cell_int32) o.2)).
    intros [j w] [b l] [b' l'].
    intros (t & _ & (b1 & Hb1 & (c & _ & (l1 & Hl1 & [= <- <-])%bind_inr
      )%bind_inr)%bind_inr)%bind_inr [Hb Hl].
    cbn [fst snd] in *. split.
    + by eapply store_cells.
    + by eapply store2_cells.
  - unfold initial_state. cbn [fst snd]. split.
    + by apply Forall_replicate.
    + apply Forall_replicate. by apply Forall_cons_2.
Qed.

(** X13: whatever the arguments, the arrays a call returns have the shapes
    asked for: [batch_size] targets, and [batch_size] rows of one label. *)
Theorem generate_batch_shape
    batch_size num_skips skip_window data (rng rng' : R) batch labels :
  generate_batch batch_size num_skips skip_window data rng =
    inr (batch, labels, rng') →
  len batch = batch_size ∧ len labels = batch_size ∧
  Forall (λ row, length row = 1%nat) labels.
Proof.
  intros Hrun.
  destruct (generate_batch_inr _ _ _ _ _ _ _ _ Hrun)
    as (_ & _ & _ & [Hbs _] & _ & buffer & data_index & Hloop).
  apply (for_each_preserve
    (λ s : arrays * deque * Z * R,
       length s.1.1.1.1 = Z.to_nat batch_size ∧
       length s.1.1.1.2 = Z.to_nat batch_size ∧
       Forall (λ row, length row = 1%nat) s.1.1.1.2)) in Hloop.
  - cbn [fst snd] in Hloop. destruct Hloop as (Hb & Hl & Hrows).
    unfold len. split_and!; [lia|lia|done].
  - intros x s s' Hgroup (Hb & Hl & Hrows).
    apply group_shape in Hgroup as (Hb' & Hl' & Hrows').
    split_and!; [congruence|congruence|auto].
  - unfold initial_state. cbn [fst snd]. rewrite !length_replicate.
    split_and!; [done|done|]. by apply Forall_replicate.
Qed.
End Errors.



Lemma generate_batch_shape_witness :
  generate_batch 3 1 1 [1; 2; 3; 4; 5] 0%nat =
    inr ([Some 2; Some 3; Some 4], [[Some 1]; [Some 4]; [Some 3]], 3%nat) ∧
  len [Some 2; Some 3; Some 4] = 3 ∧
  len [[Some 1]; [Some 4]; [Some 3]] = 3 ∧
  Forall (λ row : list cell, length row = 1%nat) [[Some 1]; [Some 4]; [Some 3]].
Proof.
  split; [reflexivity|].
  apply (generate_batch_shape 3 1 1 [1; 2; 3; 4; 5] 0%nat 3%nat). reflexivity.
Defined.

(** ** Sampling without replacement *)

Section DistinctPositions.
Context `{RandomSource R} `{Platform}.
Variables (batch_size num_skips skip_window : Z) (data : list Z).
Hypothesis Hns : 0 < num_skips.
Hypothesis Hdiv : batch_size mod num_skips = 0.
Hypothesis Hsk : num_skips ≤ 2 * skip_window.
Hypothesis Hlen : 2 * skip_window + 1 ≤ len data.
Hypothesis Htok : Forall is_int32 data.

Lemma group_ok_positions i (s : arrays * deque * Z * R) :
  2 * skip_window ≤ list_limit →
  Z.of_nat i < batch_size / num_skips →
  groups_inv batch_size num_skips skip_window data i s →
  (∀ g, (g < i)%nat → group_positions num_skips skip_window data g s.1.1.1.2) →
  ∃ s', group num_skips skip_window (2 * skip_window + 1) data (Z.of_nat i) s
          = inr s' ∧
        groups_inv batch_size num_skips skip_window data (S i) s' ∧
        ∀ g, (g < S i)%nat →
          group_positions num_skips skip_window data g s'.1.1.1.2.
Proof.
  intros Hlist Hi Hinv Hpos.
  destruct (group_ok batch_size num_skips skip_window data
              Hns Hdiv Hsk Hlen Htok Hlist i s Hi Hinv)
    as (s' & Hgroup & Hinv').
  exists s'. split; [done|]. split; [done|].
  destruct s as [[[[batch labels] buffer] data_index] rng].
  destruct Hinv as (Hb & Hl & Hr & Hwin & -> & _). cbn [fst snd] in *.
  pose proof (holds_window_int32 _ _ _ _ Htok Hwin) as Hbuf32.
  pose proof (groups_fit batch_size num_skips Hns Hdiv i Hi) as Hfit.
  pose proof (window_start_bounds skip_window data (Z.of_nat i) Hlen)
    as [Hs0 Hs1].
  remember (window_start skip_window data (Z.of_nat i)) as st eqn:Hst.
  destruct Hwin as (Hmax & Hitems_len & Hitems).
  unfold group in Hgroup.
  rewrite new_list_inr in Hgroup by (rewrite context_words_length; lia).
  rewrite bind_inr_l in Hgroup.
  rewrite random_sample_eq in Hgroup by (rewrite context_words_length; lia).
  destruct (draw rng _ (Z.to_nat num_skips)) as [ws rng1] eqn:Hdraw.
  rewrite bind_inr_l in Hgroup. cbv beta iota in Hgroup.
  pose proof (draw_length rng
    (filter (λ w, w ≠ skip_window) (range (2 * skip_window + 1)))
    (Z.to_nat num_skips)) as Hws_len.
  pose proof (draw_NoDup rng
    (filter (λ w, w ≠ skip_window) (range (2 * skip_window + 1)))
    (Z.to_nat num_skips)) as Hws_nd.
  pose proof (draw_subseteq rng
    (filter (λ w, w ≠ skip_window) (range (2 * skip_window + 1)))
    (Z.to_nat num_skips)) as Hws_sub.
  rewrite Hdraw in Hws_len, Hws_nd, Hws_sub. cbn [fst] in *.
  assert (length ws = Z.to_nat num_skips) as Hws_len'.
  { apply Hws_len.
    pose proof (context_words_length skip_window ltac:(lia)) as Hc.
    unfold len in Hc. lia. }
  assert (NoDup ws) as Hws_nd'.
  { apply Hws_nd. apply NoDup_filter, NoDup_seqZ. }
  assert (∀ w, w ∈ ws → 0 ≤ w < 2 * skip_window + 1 ∧ w ≠ skip_window) as Hws.
  { intros w Hw. apply (elem_of_context_words skip_window). by apply Hws_sub. }
  assert (is_Some (data !! Z.to_nat (st + skip_window))) as [target Htarget].
  { apply lookup_lt_is_Some. unfold len in *. lia. }
  destruct (emit_pairs_ok num_skips skip_window (Z.of_nat i) buffer ws
              batch labels target)
    as (batch' & labels' & Hemit & _ & _ & _ & Hsame & Hnew);
    [lia|lia|done| | |lia|lia|done|].
  { rewrite Hitems by lia. rewrite <-Htarget. f_equal. lia. }
  { intros w Hw. apply Hws in Hw. split; [lia|].
    apply lookup_lt_is_Some. lia. }
  rewrite Hemit, bind_inr_l in Hgroup.
  apply bind_inr in Hgroup as ([buffer' data_index'] & _ & [= <-]).
  cbn [fst snd]. intros g Hg.
  destruct (decide (g < i)%nat) as [Hold|Hcur].
  - destruct (Hpos g Hold) as (ps & Hps_len & Hps_nd & Hps & Hlabels).
    exists ps. split_and!; [done..|].
    intros j p Hp. destruct (Hlabels j p Hp) as (c & Hc & Hlc).
    exists c. split; [done|].
    destruct (Hsame (Z.to_nat (Z.of_nat g * num_skips) + j)%nat) as [_ ->];
      [|done].
    left. apply lookup_lt_Some in Hp. unfold len in Hps_len. nia.
  - assert (g = i) as -> by lia. exists ws.
    split_and!; [unfold len; lia|done|done|].
    intros j w Hw. destruct (Hnew j w Hw) as (_ & c & Hc & Hlc).
    exists c. split; [|done]. rewrite <-Hst, <-Hc.
    apply list_elem_of_lookup_2, Hws in Hw.
    rewrite Hitems by lia. f_equal. lia.
Qed.

(** X14: with valid arguments and tokens that [int32] represents, the
    labels of every group come from [num_skips] pairwise distinct positions
    of the group's window, the center excluded: the positions are sampled
    without replacement. *)
Theorem generate_batch_distinct_positions (rng rng' : R) batch labels :
  generate_batch batch_size num_skips skip_window data rng =
    inr (batch, labels, rng') →
  ∀ g, Z.of_nat g < batch_size / num_skips →
    group_positions num_skips skip_window data g labels.
Proof.
  intros Hrun g Hg.
  destruct (generate_batch_inr _ _ _ _ _ _ _ _ Hrun)
    as (_ & _ & _ & _ & _ & buffer & data_index & Hloop).
  assert (0 < batch_size / num_skips) as Hgroups by lia.
  destruct (generate_batch_inr_list _ _ _ _ _ _ _ _ Hrun Hgroups)
    as [_ Hlist].
  destruct (for_each_inv
    (λ i s, groups_inv batch_size num_skips skip_window data i s ∧
            ∀ g, (g < i)%nat →
              group_positions num_skips skip_window data g s.1.1.1.2)
    (range (batch_size / num_skips))
    (group num_skips skip_window (2 * skip_window + 1) data)
    (initial_state batch_size skip_window data rng))
    as (s' & Hloop' & _ & Hall).
  - split; [|intros g' Hg'; lia].
    unfold groups_inv, initial_state. cbn [fst snd]. rewrite !length_replicate.
    change (Z.of_nat 0) with 0. rewrite window_start_0.
    split_and!; [done|done| | |lia|lia].
    + by apply Forall_replicate.
    + pose proof (initial_window data (Z.to_nat (2 * skip_window + 1))) as Hw.
      rewrite Z.add_0_l, Z2Nat.id in Hw by lia. apply Hw.
      unfold len in Hlen. lia.
  - intros i x s Hx [Hinv Hpos]. apply lookup_seqZ in Hx as [-> Hx].
    rewrite Z.add_0_l.
    destruct (group_ok_positions i s Hlist Hx Hinv Hpos) as (s1 & ? & ? & ?).
    by exists s1.
  - rewrite Hloop in Hloop'. injection Hloop' as <-. cbn [fst snd] in Hall.
    apply Hall. unfold range. rewrite length_seqZ. lia.
Qed.
End DistinctPositions.

Lemma generate_batch_distinct_positions_witness :
  (0 < 2 ∧ 4 mod 2 = 0 ∧ 2 ≤ 2 * 1 ∧ 2 * 1 + 1 ≤ len [1; 2; 3; 4; 5] ∧
   Forall is_int32 [1; 2; 3; 4; 5]) ∧
  generate_batch 4 2 1 [1; 2; 3; 4; 5] 0%nat =
    inr ([Some 2; Some 2; Some 3; Some 3],
         [[Some 1]; [Some 3]; [Some 4]; [Some 2]], 2%nat) ∧
  ∀ g, Z.of_nat g < 4 / 2 →
    group_positions 2 1 [1; 2; 3; 4; 5] g
      [[Some 1]; [Some 3]; [Some 4]; [Some 2]].
Proof.
  split; [split_and!; [lia|reflexivity|lia|unfold len; cbn; lia|int32_tokens]|].
  split; [reflexivity|].
  apply (generate_batch_distinct_positions 4 2 1 [1; 2; 3; 4; 5]
           ltac:(lia) eq_refl ltac:(lia)
           ltac:(unfold len; cbn; lia) ltac:(int32_tokens) 0%nat 2%nat
           [Some 2; Some 2; Some 3; Some 3]).
  reflexivity.
Defined.

(** * Further properties of the sentence encoder *)

Section EmbeddingMore.
Context {Module_ Tensor : Type}.
Variable hub_Module : string → nat → result Module_.
Variable tf_cast_string : Tensor → result Tensor.
Variable tf_squeeze : Tensor → result Tensor.
Variable apply_default : Module_ → Tensor → result Tensor.
Variable output_size : Module_ → result Z.

Local Abbreviation UniversalEmbedding' :=
  (UniversalEmbedding hub_Module tf_cast_string tf_squeeze apply_default).
Local Abbreviation GetEmbeddingSize' := (GetEmbeddingSize hub_Module output_size).
Local Abbreviation step' :=
  (step hub_Module tf_cast_string tf_squeeze apply_default output_size).
Local Abbreviation run' :=
  (run hub_Module tf_cast_string tf_squeeze apply_default output_size).

Lemma run_loaded (calls : list (call Tensor)) st m :
  embed st = Some m → run' calls st = st.
Proof.
  intros Hm. unfold run. induction calls as [|c calls IH]; cbn; [done|].
  by rewrite (step_loaded hub_Module tf_cast_string tf_squeeze apply_default
                output_size c st m).
Qed.

(** X16: when building the encoder fails, either accessor passes the exception
    on and leaves [embed] unset, after printing its message: the next call
    will try to build the encoder again. *)
Theorem fetch_failure x st e :
  embed st = None →
  hub_Module encoder_url (fetches st) = inl e →
  let st' := {| embed := None;
                stdout := stdout st ++ ["Getting universal sentence encoder"];
                fetches := S (fetches st) |} in
  UniversalEmbedding' x st = (inl e, st') ∧
  GetEmbeddingSize' st = (inl e, st').
Proof.
  intros Hnone Hfail st'. unfold UniversalEmbedding, GetEmbeddingSize.
  rewrite Hnone. cbn. rewrite Hfail, Hnone. done.
Qed.

(** X17: over any non-empty sequence of calls to the two accessors, starting
    with [embed] unset and a first fetch that succeeds, the encoder is
    built once and the message printed once; a further call is answered
    by that encoder. *)
Theorem single_fetch (calls : list (call Tensor)) st m :
  embed st = None →
  hub_Module encoder_url (fetches st) = inr m →
  calls ≠ [] →
  run' calls st =
    {| embed := Some m;
       stdout := stdout st ++ ["Getting universal sentence encoder"];
       fetches := S (fetches st) |} ∧
  (GetEmbeddingSize' (run' calls st)).1 = output_size m ∧
  ∀ x, (UniversalEmbedding' x (run' calls st)).1 =
         (x ← tf_cast_string x; x ← tf_squeeze x; apply_default m x).
Proof.
  intros Hnone Hfetch Hcalls. destruct calls as [|c calls]; [done|].
  assert (step' c st =
            {| embed := Some m;
               stdout := stdout st ++ ["Getting universal sentence encoder"];
               fetches := S (fetches st) |}) as Hstep.
  { destruct c as [x|]; cbn; unfold UniversalEmbedding, GetEmbeddingSize;
      rewrite Hnone; cbn; by rewrite Hfetch. }
  assert (run' (c :: calls) st = step' c st) as Hrun.
  { change (run' (c :: calls) st) with (run' calls (step' c st)).
    apply (run_loaded calls _ m). by rewrite Hstep. }
  rewrite Hrun, Hstep. split; [done|]. split.
  - by rewrite (GetEmbeddingSize_loaded hub_Module output_size _ m).
  - intros x.
    by rewrite (UniversalEmbedding_loaded hub_Module tf_cast_string tf_squeeze
                  apply_default x _ m).
Qed.
End EmbeddingMore.

Lemma fetch_failure_witness :
  let hub_Module := λ (url : string) (n : nat),
    (if n is 0%nat then inl ValueError else inr url) : result string in
  let tf_cast_string := λ x : list string, inr x : result (list string) in
  let tf_squeeze := λ x : list string, inr x : result (list string) in
  let apply_default := λ (m : string) (x : list string), inr x : result (list string) in
  let output_size := λ m : string, inr 512 : result Z in
  let st0 := {| embed := None; stdout := []; fetches := 0 |} in
  let st1 := {| embed := None;
                stdout := [] ++ ["Getting universal sentence encoder"];
                fetches := 1 |} in
  (embed st0 = None ∧ hub_Module encoder_url (fetches st0) = inl ValueError) ∧
  UniversalEmbedding hub_Module tf_cast_string tf_squeeze apply_default
    ["hi"] st0 = (inl ValueError, st1) ∧
  GetEmbeddingSize hub_Module output_size st0 = (inl ValueError, st1).
Proof.
  intros. split; [split; reflexivity|].
  apply (fetch_failure hub_Module tf_cast_string tf_squeeze apply_default
           output_size ["hi"] st0 ValueError); reflexivity.
Defined.

Lemma single_fetch_witness :
  let hub_Module := λ (url : string) (n : nat), inr url : result string in
  let tf_cast_string := λ x : list string, inr x : result (list string) in
  let tf_squeeze := λ x : list string, inr x : result (list string) in
  let apply_default := λ (m : string) (x : list string), inr x : result (list string) in
  let output_size := λ m : string, inr 512 : result Z in
  let st0 := {| embed := None; stdout := []; fetches := 0 |} in
  let calls := [CallGetEmbeddingSize; CallUniversalEmbedding ["hi"];
                CallGetEmbeddingSize] in
  let st := run hub_Module tf_cast_string tf_squeeze apply_default output_size
              calls st0 in
  (embed st0 = None ∧ hub_Module encoder_url (fetches st0) = inr encoder_url ∧
   calls ≠ []) ∧
  st = {| embed := Some encoder_url;
          stdout := [] ++ ["Getting universal sentence encoder"];
          fetches := 1 |} ∧
  (GetEmbeddingSize hub_Module output_size st).1 = output_size encoder_url ∧
  ∀ x, (UniversalEmbedding hub_Module tf_cast_string tf_squeeze apply_default
          x st).1 =
         (x ← tf_cast_string x; x ← tf_squeeze x; apply_default encoder_url x).
Proof.
  intros. split; [split_and!; [reflexivity|reflexivity|discriminate]|].
  apply (single_fetch hub_Module tf_cast_string tf_squeeze apply_default
           output_size calls st0 encoder_url);
    [reflexivity|reflexivity|discriminate].
Defined.

(** * Two more edge cases *)

(** X18: the keys of the dictionary are "UNK" and the selected tokens, nothing
    else; in particular every key other than "UNK" is a token of
    [words]. *)
Theorem build_dataset_keys words n_words data count dictionary rev :
  build_dataset words n_words = inr (data, count, dictionary, rev) →
  ∀ w, w ∈ dict_keys dictionary ↔ w = UNK ∨ w ∈ (drop 1 count).*1.
Proof.
  intros Hrun w. rewrite (build_dataset_count_eq _ _ _ _ _ _ Hrun).
  cbn [drop]. rewrite drop_0.
  rewrite build_dataset_eq in Hrun. injection Hrun as _ _ <- _.
  split.
  - intros Hkey.
    destruct (decide (w ∈ (most_common (n_words - 1) (Counter words)).*1))
      as [Hsel|Hnot]; [by right|left].
    apply dict_get_is_Some in Hkey as [v Hv].
    rewrite assign_ids_cons_UNK, assign_loop_get_other in Hv by done.
    cbn in Hv. by case_decide.
  - intros [->|Hsel]; [apply assign_ids_has_UNK|].
    rewrite assign_ids_cons_UNK. by apply assign_loop_keys.
Qed.

Lemma build_dataset_keys_witness :
  build_dataset ["a"; "b"; "a"; "c"; "a"; "b"] 3 =
    inr ([1; 2; 1; 0; 1; 2], [("UNK", 1); ("a", 3); ("b", 2)],
         [("UNK", 0); ("a", 1); ("b", 2)], [(0, "UNK"); (1, "a"); (2, "b")]) ∧
  ∀ w, w ∈ dict_keys [("UNK", 0); ("a", 1); ("b", 2)] ↔
       w = UNK ∨ w ∈ (drop 1 [("UNK", 1); ("a", 3); ("b", 2)]).*1.
Proof.
  split; [reflexivity|].
  apply (build_dataset_keys ["a"; "b"; "a"; "c"; "a"; "b"] 3
           [1; 2; 1; 0; 1; 2] _ _ [(0, "UNK"); (1, "a"); (2, "b")]).
  reflexivity.
Defined.


